(** * AuthService: OAuth2 authorization-code flow with PKCE

    A shallow embedding of the class [AuthService] of
    [src/example/src/Home.tsx] (the part after the first separator, lines
    89-377), and the properties of it that the specification states.

    Conventions of the embedding.
    - A JavaScript string is a [string]; the characters of a URL are ASCII
      and a character outside ASCII is held as its UTF-8 bytes.
    - A JavaScript number is an integer ([Z]) or [NaN]: the clock, the
      lifetimes and the slack of this program are integers (milliseconds and
      seconds) and the arithmetic on them is exact below 2^53.
    - [localStorage] is a finite map from keys to stored texts.
    - A method is a function of the state of the page that returns normally
      or throws; an [async] method is cut at its [await]. *)

From Stdlib Require Import ZArith String Ascii List Bool Lia.
From stdpp Require Import base option list gmap strings.
Import ListNotations.

Local Open Scope string_scope.
Local Open Scope Z_scope.

(** ** Strings: [String.prototype.split], [Array.prototype.join] *)

Module Str.

(** [s.split(sep)] for a separator of one character: the pieces between the
    occurrences of [sep], never an empty array. *)
Fixpoint split (sep : ascii) (s : string) : list string :=
  match s with
  | EmptyString => [EmptyString]
  | String a s' =>
      if Ascii.eqb a sep then EmptyString :: split sep s'
      else match split sep s' with
           | piece :: pieces => String a piece :: pieces
           | [] => [String a EmptyString]
           end
  end.

(** [pieces.join(sep)]. *)
Fixpoint join (sep : string) (pieces : list string) : string :=
  match pieces with
  | [] => EmptyString
  | [piece] => piece
  | piece :: rest => piece ++ sep ++ join sep rest
  end.

(** [sep] occurs in [s]. *)
Fixpoint has (sep : ascii) (s : string) : bool :=
  match s with
  | EmptyString => false
  | String a s' => Ascii.eqb a sep || has sep s'
  end.

(** A string is truthy when it is not empty. *)
Definition truthy (s : string) : bool :=
  match s with EmptyString => false | _ => true end.

(** [a || b] on strings, [a] possibly [undefined]. *)
Definition or_else (a : option string) (b : string) : string :=
  match a with
  | Some s => if truthy s then s else b
  | None => b
  end.

End Str.

(** ** [decodeURIComponent] *)

Module URI.

Inductive token :=
  | Lit (a : ascii)      (* a character that stands for itself *)
  | Esc (b : N).         (* the byte of an escape %XX *)

Definition hex_digit (a : ascii) : option N :=
  let n := N_of_ascii a in
  if ((48 <=? n) && (n <=? 57))%N then Some (n - 48)%N
  else if ((65 <=? n) && (n <=? 70))%N then Some (n - 55)%N
  else if ((97 <=? n) && (n <=? 102))%N then Some (n - 87)%N
  else None.

(** The escapes of the string; [None] when a [%] is not followed by two
    hexadecimal digits (a URIError). *)
Fixpoint tokens (s : string) : option (list token) :=
  match s with
  | EmptyString => Some []
  | String "%" (String h (String l rest)) =>
      match hex_digit h, hex_digit l with
      | Some x, Some y =>
          match tokens rest with
          | Some ts => Some (Esc (16 * x + y) :: ts)
          | None => None
          end
      | _, _ => None
      end
  | String "%" _ => None
  | String a rest =>
      match tokens rest with
      | Some ts => Some (Lit a :: ts)
      | None => None
      end
  end.

Definition between (lo hi b : N) : bool := ((lo <=? b) && (b <=? hi))%N.

(** The ranges of the bytes that follow the first byte [b] of a well-formed
    UTF-8 sequence; [None] when [b] cannot start one. *)
Definition continuation_ranges (b : N) : option (list (N * N)) :=
  if between 194 223 b then Some [(128, 191)]%N
  else if (b =? 224)%N then Some [(160, 191); (128, 191)]%N
  else if between 225 236 b then Some [(128, 191); (128, 191)]%N
  else if (b =? 237)%N then Some [(128, 159); (128, 191)]%N
  else if between 238 239 b then Some [(128, 191); (128, 191)]%N
  else if (b =? 240)%N then Some [(144, 191); (128, 191); (128, 191)]%N
  else if between 241 243 b then Some [(128, 191); (128, 191); (128, 191)]%N
  else if (b =? 244)%N then Some [(128, 143); (128, 191); (128, 191)]%N
  else None.

(** The tokens after the first byte of a sequence must be escapes in the
    given ranges. *)
Fixpoint continuation (ranges : list (N * N)) (ts : list token)
  : option (list ascii * list token) :=
  match ranges with
  | [] => Some ([], ts)
  | (lo, hi) :: ranges' =>
      match ts with
      | Esc b :: ts' =>
          if between lo hi b then
            match continuation ranges' ts' with
            | Some (bytes, rest) => Some (ascii_of_N b :: bytes, rest)
            | None => None
            end
          else None
      | _ => None
      end
  end.

(** The decoded characters, with [fuel] at least the number of tokens. *)
Fixpoint assemble (fuel : nat) (ts : list token) : option (list ascii) :=
  match fuel with
  | O => match ts with [] => Some [] | _ => None end
  | S fuel' =>
      match ts with
      | [] => Some []
      | Lit a :: ts' => option_map (cons a) (assemble fuel' ts')
      | Esc b :: ts' =>
          if (b <? 128)%N then option_map (cons (ascii_of_N b)) (assemble fuel' ts')
          else match continuation_ranges b with
               | Some ranges =>
                   match continuation ranges ts' with
                   | Some (bytes, rest) =>
                       option_map (fun out => ascii_of_N b :: bytes ++ out)
                                  (assemble fuel' rest)
                   | None => None
                   end
               | None => None
               end
      end
  end.

(** [decodeURIComponent(s)]: [None] stands for the URIError that a malformed
    escape or an escape sequence that is not UTF-8 raises. *)
Definition decodeURIComponent (s : string) : option string :=
  match tokens s with
  | Some ts => option_map string_of_list_ascii (assemble (List.length ts) ts)
  | None => None
  end.

End URI.

(** ** JSON values and the JavaScript operations on them *)

#[local] Set Warnings "-register-all".

(** A value that [JSON.parse] or [response.json()] gives. *)
Inductive json :=
  | JNull
  | JBool (b : bool)
  | JNum (n : Z)
  | JStr (s : string)
  | JArr (items : list json)
  | JObj (members : gmap string json).

(** A JavaScript value of this program: a JSON value or [undefined]. *)
Abbreviation jsval := (option json).

Inductive exn :=
  | Error (message : string)   (* new Error(message) *)
  | TypeError
  | SyntaxError
  | URIError.

Module JS.

(** ToBoolean. *)
Definition truthy (v : jsval) : bool :=
  match v with
  | None => false
  | Some JNull => false
  | Some (JBool b) => b
  | Some (JNum n) => negb (n =? 0)
  | Some (JStr s) => Str.truthy s
  | Some (JArr _) => true
  | Some (JObj _) => true
  end.

(** [v.name], for a name that is neither [length] nor an index: the names
    read here are [refresh_token], [expires_in], [expires_at] and
    [codeVerifier]. Reading a member of [null] is a TypeError. *)
Definition member (v : json) (name : string) : exn + jsval :=
  match v with
  | JNull => inl TypeError
  | JObj members => inr (members !! name)
  | _ => inr None
  end.

(** [v.name = x] in strict code (a class body), as [JSON.stringify] sees the
    result: a member of an object is written (a member that is [undefined] is
    not serialised), a property added to an array is not serialised, and
    writing to [null] or to a primitive value is a TypeError. *)
Definition assign (v : json) (name : string) (x : jsval) : exn + json :=
  match v with
  | JObj members =>
      inr (JObj (match x with
                 | Some x => <[name := x]> members
                 | None => delete name members
                 end))
  | JArr items => inr (JArr items)
  | _ => inl TypeError
  end.

Inductive number :=
  | NaN
  | Num (n : Z).

Definition add (a b : number) : number :=
  match a, b with Num x, Num y => Num (x + y) | _, _ => NaN end.
Definition sub (a b : number) : number :=
  match a, b with Num x, Num y => Num (x - y) | _, _ => NaN end.
Definition mul (a b : number) : number :=
  match a, b with Num x, Num y => Num (x * y) | _, _ => NaN end.

(** [a > 0]; a comparison with [NaN] is false. *)
Definition positive (a : number) : bool :=
  match a with Num x => 0 <? x | NaN => false end.

(** ToNumber on the values whose conversion is an integer or [NaN].
    The conversion of a string (and of an array or an object, which goes
    through a string) is not part of the embedding: [None]. *)
Definition ToNumber (v : jsval) : option number :=
  match v with
  | None => Some NaN
  | Some JNull => Some (Num 0)
  | Some (JBool b) => Some (Num (if b then 1 else 0))
  | Some (JNum n) => Some (Num n)
  | Some (JStr _) => None
  | Some (JArr _) => None
  | Some (JObj _) => None
  end.

(** [JSON.stringify] writes a number that is [NaN] as [null]. *)
Definition stringify_number (a : number) : json :=
  match a with Num x => JNum x | NaN => JNull end.

End JS.

(** ** The page: storage, location, timers, network *)

(** A stored string, by what [JSON.parse] makes of it: the JSON value it
    denotes, or a string that is not JSON (a URL never is). *)
Inductive text :=
  | Plain (s : string)
  | Json (v : json).

Definition JSON_parse (t : text) : exn + json :=
  match t with
  | Json v => inr v
  | Plain _ => inl SyntaxError
  end.

Definition JSON_stringify (v : json) : text := Json v.

Record AuthServiceProps := {
  clientId : string;
  clientSecret : option string;
  contentType : option string;
  provider : string;
  authorizeEndpoint : option string;
  tokenEndpoint : option string;
  logoutEndpoint : option string;
  audience : option string;
  redirectUri : option string;
  scopes : list string;
  prompts : option (list string);
  autoRefresh : option bool;
  refreshSlack : option Z;
  localStoragePrefix : option string
}.

Module TokenRequestBody.
Record t := {
  clientId : string;
  grantType : string;
  redirectUri : option string;
  refresh_token : jsval;
  clientSecret : option string;
  code : jsval;
  codeVerifier : jsval
}.
End TokenRequestBody.

(** A call of [fetch]: the URL, the Content-Type header and the payload that
    [toUrlEncoded] serialises. *)
Record request := {
  request_url : string;
  request_content_type : string;
  request_payload : TokenRequestBody.t
}.

(** What the token endpoint answers: [fetch] rejects, or there is a response
    with a status and a body that [response.json()] parses or rejects. *)
Inductive body :=
  | Unparsable
  | Parsed (v : json).

Inductive response :=
  | Rejected (cause : exn)
  | Responded (status : Z) (content : body).

Record authorize_query := {
  query_clientId : string;
  query_scope : string;
  query_prompt : option string;
  query_responseType : string;
  query_redirectUri : option string;
  query_audience : option string;
  query_codeChallenge : jsval;
  query_codeChallengeMethod : string
}.

Inductive navigation :=
  | Replace (url : text)       (* window.location.replace(url) *)
  | ReplaceLogout (endpoint : string) (client_id : string)
                  (post_logout_redirect_uri : option string)
  | ReplaceAuthorize (endpoint : string) (query : authorize_query)
  | Reload.                    (* window.location.reload() *)

Inductive console_entry :=
  | Warn (e : exn)             (* console.warn({ e }) *)
  | Log (uri : option text).   (* console.log({ uri }) *)

Record state := {
  localStorage : gmap string text;
  href : string;                          (* window.location.href *)
  timeout : option positive;              (* this.timeout *)
  timers : gmap positive (jsval * Z);     (* pending timers of the window: the
                                             refresh token of the callback and
                                             the delay *)
  next_handle : positive;                 (* the next handle of setTimeout *)
  requests : list request;                (* the calls of fetch, latest first *)
  navigations : list navigation;          (* latest first *)
  console : list console_entry;           (* latest first *)
  clock : Z;                              (* what Date reads next *)
  ticks : list Z                          (* and at the readings after it;
                                             then the clock stands still *)
}.

Definition set_localStorage (f : gmap string text -> gmap string text) (σ : state) : state :=
  {| localStorage := f (localStorage σ); href := href σ; timeout := timeout σ;
     timers := timers σ; next_handle := next_handle σ; requests := requests σ;
     navigations := navigations σ; console := console σ;
     clock := clock σ; ticks := ticks σ |}.

Definition set_href (url : string) (σ : state) : state :=
  {| localStorage := localStorage σ; href := url; timeout := timeout σ;
     timers := timers σ; next_handle := next_handle σ; requests := requests σ;
     navigations := navigations σ; console := console σ;
     clock := clock σ; ticks := ticks σ |}.

Definition set_timers (handle : option positive)
    (f : gmap positive (jsval * Z) -> gmap positive (jsval * Z))
    (next : positive) (σ : state) : state :=
  {| localStorage := localStorage σ; href := href σ; timeout := handle;
     timers := f (timers σ); next_handle := next; requests := requests σ;
     navigations := navigations σ; console := console σ;
     clock := clock σ; ticks := ticks σ |}.

Definition add_request (r : request) (σ : state) : state :=
  {| localStorage := localStorage σ; href := href σ; timeout := timeout σ;
     timers := timers σ; next_handle := next_handle σ; requests := r :: requests σ;
     navigations := navigations σ; console := console σ;
     clock := clock σ; ticks := ticks σ |}.

Definition add_navigation (n : navigation) (σ : state) : state :=
  {| localStorage := localStorage σ; href := href σ; timeout := timeout σ;
     timers := timers σ; next_handle := next_handle σ; requests := requests σ;
     navigations := n :: navigations σ; console := console σ;
     clock := clock σ; ticks := ticks σ |}.

Definition add_console (c : console_entry) (σ : state) : state :=
  {| localStorage := localStorage σ; href := href σ; timeout := timeout σ;
     timers := timers σ; next_handle := next_handle σ; requests := requests σ;
     navigations := navigations σ; console := c :: console σ;
     clock := clock σ; ticks := ticks σ |}.

Definition tick (σ : state) : state :=
  {| localStorage := localStorage σ; href := href σ; timeout := timeout σ;
     timers := timers σ; next_handle := next_handle σ; requests := requests σ;
     navigations := navigations σ; console := console σ;
     clock := hd (clock σ) (ticks σ); ticks := tl (ticks σ) |}.

(** ** Methods as state transformers that may throw *)

(** How a run of synchronous code ends. [Unmodelled] is a run that converts
    a string to a number (see [JS.ToNumber]); the interface [AuthTokens]
    declares the members concerned as numbers. *)
Inductive completion (A : Type) :=
  | Normal (a : A) (σ : state)
  | Throw (e : exn) (σ : state)
  | Unmodelled.
Arguments Normal {A} a σ.
Arguments Throw {A} e σ.
Arguments Unmodelled {A}.

Definition M (A : Type) : Type := state -> completion A.

#[export] Instance M_ret : MRet M := fun A a σ => Normal a σ.
#[export] Instance M_bind : MBind M := fun A B k m σ =>
  match m σ with
  | Normal a σ' => k a σ'
  | Throw e σ' => Throw e σ'
  | Unmodelled => Unmodelled
  end.

Definition throw {A} (e : exn) : M A := fun σ => Throw e σ.
Definition unmodelled {A} : M A := fun _ => Unmodelled.
Definition modify (f : state -> state) : M unit := fun σ => Normal () (f σ).
Definition gets {A} (f : state -> A) : M A := fun σ => Normal (f σ) σ.

(** A value or the exception of a pure operation. *)
Definition lift {A} (r : exn + A) : M A :=
  match r with
  | inl e => throw e
  | inr a => mret a
  end.

(** [p.then(on_fulfilled).catch(on_rejected)], run once [p] is settled: a
    rejection of [p] or of [on_fulfilled] goes to [on_rejected]. *)
Definition then_catch {A} (p : M A) (on_fulfilled : A -> M unit)
    (on_rejected : exn -> M unit) : M unit := fun σ =>
  match p σ with
  | Normal a σ1 =>
      match on_fulfilled a σ1 with
      | Throw e σ2 => on_rejected e σ2
      | settled => settled
      end
  | Throw e σ1 => on_rejected e σ1
  | Unmodelled => Unmodelled
  end.

(** [new Date().getTime()]. *)
Definition getTime : M Z := fun σ => Normal (clock σ) (tick σ).

(** ** The code parameter of the location *)

(** The loop of [getCodeFromLocation] over the pairs of the query:
    [[key, value] = pair.split('=')] keeps the first two pieces. *)
Fixpoint scan_pairs (pairs : list string) : exn + option string :=
  match pairs with
  | [] => inr None
  | param :: rest =>
      let pieces := Str.split "=" param in
      let key := pieces !! 0%nat in
      let value := pieces !! 1%nat in
      if bool_decide (key = Some "code") then
        match URI.decodeURIComponent (Str.or_else value EmptyString) with
        | Some code => inr (Some code)
        | None => inl URIError
        end
      else scan_pairs rest
  end.

(** [getCodeFromLocation(location)], on [location.toString()]; [inr None] is
    [null]. *)
Definition getCodeFromLocation (location : string) : exn + option string :=
  let split := Str.split "?" location in
  if (length split <? 2)%nat then inr None
  else scan_pairs (Str.split "&" (default EmptyString (split !! 1%nat))).

(** [.filter(([key]) => key !== 'code')] on one split parameter. *)
Definition not_code (keyAndVal : list string) : bool :=
  negb (bool_decide (keyAndVal !! 0%nat = Some "code")).

(** [newSearch] of [removeCodeFromLocation]. *)
Definition newSearch (search : string) : string :=
  Str.join "&"
    (map (Str.join "=")
       (List.filter not_code (map (Str.split "=") (Str.split "&" search)))).

(** The URL that [removeCodeFromLocation] passes to [replaceState] for the
    location [url]; [None] when it returns without replacing it. *)
Definition code_removed (url : string) : option string :=
  let pieces := Str.split "?" url in
  let base := default EmptyString (pieces !! 0%nat) in
  let search := pieces !! 1%nat in
  match search with
  | None => None
  | Some search =>
      if negb (Str.truthy search) then None
      else
        let newSearch := newSearch search in
        Some (base ++ (if (0 <? String.length newSearch)%nat
                       then "?" ++ newSearch else EmptyString))
  end.

(** The visible URL after [removeCodeFromLocation]. *)
Definition strip_code (url : string) : string :=
  default url (code_removed url).

(** ** The class [AuthService] *)

Section AuthService.

Variable props : AuthServiceProps.

Definition prefixed (key : string) : string :=
  default EmptyString (localStoragePrefix props) ++ key.

Definition getItem (key : string) : M (option text) :=
  gets (fun σ => localStorage σ !! prefixed key).

Definition haveItem (key : string) : M bool :=
  item ← getItem key; mret (bool_decide (item ≠ None)).

Definition removeItem (key : string) : M unit :=
  modify (set_localStorage (delete (prefixed key))).

Definition setItem (key : string) (value : text) : M unit :=
  modify (set_localStorage (<[prefixed key := value]>)).

Definition removeCodeFromLocation : M unit :=
  modify (fun σ => set_href (strip_code (href σ)) σ).

Definition getPkce : M json :=
  pkce ← getItem "pkce";
  match pkce with
  | None => throw (Error "PKCE pair not found in local storage")
  | Some pkce => lift (JSON_parse pkce)
  end.

Definition setAuthTokens (auth : json) : M unit :=
  let refreshSlack := default 5 (refreshSlack props) in
  now ← getTime;
  expires_in ← lift (JS.member auth "expires_in");
  match JS.ToNumber expires_in with
  | None => unmodelled
  | Some expires_in =>
      let expires_at :=
        JS.add (JS.Num now)
               (JS.mul (JS.add expires_in (JS.Num refreshSlack)) (JS.Num 1000)) in
      auth ← lift (JS.assign auth "expires_at"
                             (Some (JS.stringify_number expires_at)));
      setItem "auth" (JSON_stringify auth)
  end.

Definition getAuthTokens : M json :=
  auth ← getItem "auth";
  match auth with
  | None => throw (Error "Auth not found in local storage")
  | Some auth => lift (JSON_parse auth)
  end.

Definition isAuthenticated : M bool := haveItem "auth".

Definition isPending : M bool :=
  pkce ← haveItem "pkce";
  authenticated ← isAuthenticated;
  mret (pkce && negb authenticated).

Definition logout (shouldEndSession : bool) : M bool :=
  removeItem "pkce";;
  removeItem "auth";;
  if shouldEndSession then
    modify (add_navigation
              (ReplaceLogout
                 (Str.or_else (logoutEndpoint props) (provider props ++ "/logout"))
                 (clientId props) (redirectUri props)));;
    mret true
  else
    modify (add_navigation Reload);;
    mret true.

(** [authorize()] from where [createPKCECodes()] (of [./pkce]) has resolved
    to [pkce]. *)
Definition authorize (pkce : json) : M unit :=
  setItem "pkce" (JSON_stringify pkce);;
  url ← gets href;
  setItem "preAuthUri" (Plain url);;
  removeItem "auth";;
  codeChallenge ← lift (JS.member pkce "codeChallenge");
  modify (add_navigation
            (ReplaceAuthorize
               (Str.or_else (authorizeEndpoint props) (provider props ++ "/authorize"))
               {| query_clientId := clientId props;
                  query_scope := Str.join " " (scopes props);
                  query_prompt :=
                    match prompts props with
                    | Some (p :: ps) => Some (Str.join " " (p :: ps))
                    | _ => None
                    end;
                  query_responseType := "code";
                  query_redirectUri := redirectUri props;
                  query_audience :=
                    match audience props with
                    | Some a => if Str.truthy a then Some a else None
                    | None => None
                    end;
                  query_codeChallenge := codeChallenge;
                  query_codeChallengeMethod := "S256" |})).

(** [armRefreshTimer]: [clearTimeout] of the handle kept in [this.timeout],
    then [setTimeout], whose handle is a fresh positive integer. *)
Definition armRefreshTimer (refreshToken : jsval) (timeoutDuration : Z) : M unit :=
  modify (fun σ =>
    let cleared :=
      match timeout σ with
      | Some handle => delete handle (timers σ)
      | None => timers σ
      end in
    let handle := next_handle σ in
    set_timers (Some handle)
               (fun _ => <[handle := (refreshToken, timeoutDuration)]> cleared)
               (Pos.succ handle) σ).

(** The two branches on [timeout = expiresAt - now] that [startTimer] and the
    callback of the timer share. *)
Definition arm_or_expire (refreshToken expiresAt : jsval) : M unit :=
  now ← getTime;
  match JS.ToNumber expiresAt with
  | None => unmodelled
  | Some expiresAt =>
      let timeout := JS.sub expiresAt (JS.Num now) in
      if JS.positive timeout then
        match timeout with
        | JS.Num timeout => armRefreshTimer refreshToken timeout
        | JS.NaN => mret ()
        end
      else
        removeItem "auth";;
        removeCodeFromLocation
  end.

Definition startTimer : M unit :=
  authenticated ← isAuthenticated;
  if negb authenticated then mret ()
  else
    authTokens ← getAuthTokens;
    refreshToken ← lift (JS.member authTokens "refresh_token");
    expiresAt ← lift (JS.member authTokens "expires_at");
    if negb (JS.truthy expiresAt) || negb (JS.truthy refreshToken) then mret ()
    else arm_or_expire refreshToken expiresAt.

(** [fetchToken] up to [await fetch(...)]: the payload is built and sent. *)
Definition fetchToken_request (code : jsval) (isRefresh : bool)
  : M TokenRequestBody.t :=
  let payload :=
    {| TokenRequestBody.clientId := clientId props;
       TokenRequestBody.clientSecret :=
         match clientSecret props with
         | Some secret => if Str.truthy secret then Some secret else None
         | None => None
         end;
       TokenRequestBody.redirectUri := redirectUri props;
       TokenRequestBody.grantType := "authorization_code";
       TokenRequestBody.refresh_token := None;
       TokenRequestBody.code := None;
       TokenRequestBody.codeVerifier := None |} in
  payload ←
    (if isRefresh then
       mret {| TokenRequestBody.clientId := TokenRequestBody.clientId payload;
               TokenRequestBody.clientSecret := TokenRequestBody.clientSecret payload;
               TokenRequestBody.redirectUri := TokenRequestBody.redirectUri payload;
               TokenRequestBody.grantType := "refresh_token";
               TokenRequestBody.refresh_token := code;
               TokenRequestBody.code := None;
               TokenRequestBody.codeVerifier := None |}
     else
       pkce ← getPkce;
       codeVerifier ← lift (JS.member pkce "codeVerifier");
       mret {| TokenRequestBody.clientId := TokenRequestBody.clientId payload;
               TokenRequestBody.clientSecret := TokenRequestBody.clientSecret payload;
               TokenRequestBody.redirectUri := TokenRequestBody.redirectUri payload;
               TokenRequestBody.grantType := TokenRequestBody.grantType payload;
               TokenRequestBody.refresh_token := None;
               TokenRequestBody.code := code;
               TokenRequestBody.codeVerifier := codeVerifier |});
  modify (add_request
            {| request_url :=
                 Str.or_else (tokenEndpoint props) (provider props ++ "/token");
               request_content_type :=
                 Str.or_else (contentType props) "application/x-www-form-urlencoded";
               request_payload := payload |});;
  mret payload.

(** [if (isRefresh && !json.refresh_token) json.refresh_token = payload.refresh_token]. *)
Definition carry_forward (isRefresh : bool) (payload : TokenRequestBody.t)
    (parsed : json) : M json :=
  if isRefresh then
    refresh_token ← lift (JS.member parsed "refresh_token");
    if negb (JS.truthy refresh_token)
    then lift (JS.assign parsed "refresh_token" (TokenRequestBody.refresh_token payload))
    else mret parsed
  else mret parsed.

(** [fetchToken] from [await fetch(...)] on, given what the endpoint
    answers. The status of the response is not read. *)
Definition fetchToken_response (payload : TokenRequestBody.t) (isRefresh : bool)
    (answer : response) : M json :=
  match answer with
  | Rejected cause => throw cause
  | Responded status content =>
      removeItem "pkce";;
      parsed ← match content with
               | Unparsable => throw SyntaxError
               | Parsed v => mret v
               end;
      parsed ← carry_forward isRefresh payload parsed;
      setAuthTokens parsed;;
      (if default true (autoRefresh props) then startTimer else mret ());;
      getAuthTokens
  end.

(** [fetchToken(code, isRefresh)] run to its end against [answer]. *)
Definition fetchToken (code : jsval) (isRefresh : bool) (answer : response)
  : M json :=
  payload ← fetchToken_request code isRefresh;
  fetchToken_response payload isRefresh answer.

(** The handlers that the callback of the refresh timer chains to
    [fetchToken(refreshToken, true)]. *)
Definition refresh_fulfilled (tokens : json) : M unit :=
  newRefreshToken ← lift (JS.member tokens "refresh_token");
  expiresAt ← lift (JS.member tokens "expires_at");
  if negb (JS.truthy expiresAt) then mret ()
  else arm_or_expire newRefreshToken expiresAt.

Definition refresh_rejected (e : exn) : M unit :=
  removeItem "auth";;
  removeCodeFromLocation;;
  modify (add_console (Warn e)).

(** The callback that [armRefreshTimer] gives to [setTimeout]. *)
Definition refresh_callback (refreshToken : jsval) (answer : response) : M unit :=
  then_catch (fetchToken refreshToken true answer) refresh_fulfilled refresh_rejected.

Definition restoreUri : M unit :=
  uri ← getItem "preAuthUri";
  removeItem "preAuthUri";;
  modify (add_console (Log uri));;
  match uri with
  | Some uri => modify (add_navigation (Replace uri))
  | None => mret ()
  end;;
  removeCodeFromLocation.

(** The handler of the constructor for a failed exchange. *)
Definition constructor_rejected (e : exn) : M unit :=
  removeItem "pkce";;
  removeItem "auth";;
  removeCodeFromLocation;;
  modify (add_console (Warn e)).

(** [new AuthService(props)], run until the promise chain of the exchange
    (if any) is settled against [answer]. *)
Definition constructor (answer : response) : M unit :=
  location ← gets href;
  code ← lift (getCodeFromLocation location);
  match code with
  | Some code =>
      then_catch (fetchToken (Some (JStr code)) false answer)
                 (fun _ => restoreUri) constructor_rejected
  | None =>
      if bool_decide (autoRefresh props = Some true) then startTimer else mret ()
  end.

End AuthService.

(** ** The page as an event loop

    The suspension points of the class are the [await] of [fetchToken] and
    the delay of the timer. Between them the code runs to completion, so a
    page is its state and the exchanges in flight, and it moves by events:
    a call of a method, a timer that fires, an answer that arrives, a load of
    the page (which makes a new instance). A navigation that [logout],
    [authorize] or [restoreUri] asks for is recorded; the page goes on until
    it is loaded again. *)

Inductive origin :=
  | ByConstructor
  | ByTimer
  | ByCaller.

Record exchange := {
  exchange_origin : origin;
  exchange_isRefresh : bool;
  exchange_payload : TokenRequestBody.t
}.

Inductive event :=
  | Load (url : string)
  | Call_logout (shouldEndSession : bool)
  | Call_authorize (pkce : json)
  | Call_startTimer
  | Call_setAuthTokens (auth : json)
  | Call_restoreUri
  | Call_armRefreshTimer (refreshToken : jsval) (timeoutDuration : Z)
  | Call_fetchToken (code : jsval) (isRefresh : bool)
  | Timer_fires (handle : positive)
  | Answer_arrives (index : nat) (answer : response).

Record page := {
  page_state : state;
  in_flight : list exchange
}.

Section EventLoop.

Variable props : AuthServiceProps.

Definition on_fulfilled (o : origin) : json -> M unit :=
  match o with
  | ByConstructor => fun _ => restoreUri props
  | ByTimer => refresh_fulfilled props
  | ByCaller => fun _ => mret ()
  end.

Definition on_rejected (o : origin) : exn -> M unit :=
  match o with
  | ByConstructor => constructor_rejected props
  | ByTimer => refresh_rejected props
  | ByCaller => fun _ => mret ()
  end.

(** The state in which a run ends, whether it returns or throws to its
    caller. *)
Definition settle {A} (c : completion A) : option state :=
  match c with
  | Normal _ σ => Some σ
  | Throw _ σ => Some σ
  | Unmodelled => None
  end.

(** A call of [fetchToken] up to its [await]. *)
Definition begin_exchange (o : origin) (code : jsval) (isRefresh : bool)
    (pg : page) : option page :=
  match fetchToken_request props code isRefresh (page_state pg) with
  | Normal payload σ =>
      Some {| page_state := σ;
              in_flight := in_flight pg ++
                [{| exchange_origin := o; exchange_isRefresh := isRefresh;
                    exchange_payload := payload |}] |}
  | Throw e σ =>
      σ' ← settle (on_rejected o e σ);
      Some {| page_state := σ'; in_flight := in_flight pg |}
  | Unmodelled => None
  end.

(** A call of a synchronous method. *)
Definition call {A} (m : M A) (pg : page) : option page :=
  σ ← settle (m (page_state pg));
  Some {| page_state := σ; in_flight := in_flight pg |}.

(** A new document at [url]: no timer, no exchange, a new instance. *)
Definition loaded (url : string) (σ : state) : state :=
  set_href url (set_timers None (fun _ => ∅) (next_handle σ) σ).

Definition step (ev : event) (pg : page) : option page :=
  match ev with
  | Load url =>
      let σ := loaded url (page_state pg) in
      let pg := {| page_state := σ; in_flight := [] |} in
      match getCodeFromLocation url with
      | inl _ => Some pg
      | inr (Some code) => begin_exchange ByConstructor (Some (JStr code)) false pg
      | inr None =>
          if bool_decide (autoRefresh props = Some true)
          then call (startTimer props) pg else Some pg
      end
  | Call_logout shouldEndSession => call (logout props shouldEndSession) pg
  | Call_authorize pkce => call (authorize props pkce) pg
  | Call_startTimer => call (startTimer props) pg
  | Call_setAuthTokens auth => call (setAuthTokens props auth) pg
  | Call_restoreUri => call (restoreUri props) pg
  | Call_armRefreshTimer refreshToken timeoutDuration =>
      call (armRefreshTimer refreshToken timeoutDuration) pg
  | Call_fetchToken code isRefresh => begin_exchange ByCaller code isRefresh pg
  | Timer_fires handle =>
      match timers (page_state pg) !! handle with
      | Some (refreshToken, _) =>
          let σ := set_timers (timeout (page_state pg)) (delete handle)
                              (next_handle (page_state pg)) (page_state pg) in
          begin_exchange ByTimer refreshToken true
            {| page_state := σ; in_flight := in_flight pg |}
      | None => None
      end
  | Answer_arrives index answer =>
      match in_flight pg !! index with
      | Some ex =>
          σ ← settle
                (then_catch
                   (fetchToken_response props (exchange_payload ex)
                                        (exchange_isRefresh ex) answer)
                   (on_fulfilled (exchange_origin ex))
                   (on_rejected (exchange_origin ex))
                   (page_state pg));
          Some {| page_state := σ; in_flight := delete index (in_flight pg) |}
      | None => None
      end
  end.

Fixpoint run (events : list event) (pg : page) : option page :=
  match events with
  | [] => Some pg
  | ev :: events' =>
      match step ev pg with
      | Some pg' => run events' pg'
      | None => None
      end
  end.

End EventLoop.

(** ** [getUser] and [login] *)

Section Identity.

Variable props : AuthServiceProps.

(** [jwtDecode] of the package [jwt-decode]: the claims of a token, or the
    error it throws on a value that is not a well-formed token. *)
Variable jwtDecode : json -> exn + json.

Definition getUser : M json :=
  authenticated ← isAuthenticated props;
  if negb authenticated then throw (Error "Not authenticated")
  else
    authTokens ← getAuthTokens props;
    id_token ← lift (JS.member authTokens "id_token");
    match id_token with
    | Some token =>
        if negb (JS.truthy id_token) then throw (Error "No id token")
        else lift (jwtDecode token)
    | None => throw (Error "No id token")
    end.

(** [login()] is [authorize()]. *)
Definition login (pkce : json) : M unit := authorize props pkce.

End Identity.

(** ** Assertions on runs *)

(** [Q] holds of the state in which a run ends. *)
Definition final {A} (c : completion A) (Q : state -> Prop) : Prop :=
  match c with
  | Normal _ σ => Q σ
  | Throw _ σ => Q σ
  | Unmodelled => True
  end.

(** [m] keeps the invariant [I], however it ends. *)
Definition stable {A} (I : state -> Prop) (m : M A) : Prop :=
  forall σ, I σ -> final (m σ) I.

(** [I] does not depend on the clock, the location, the console or the
    navigations. *)
Record frame (I : state -> Prop) : Prop := {
  frame_tick : forall σ, I σ -> I (tick σ);
  frame_href : forall url σ, I σ -> I (set_href url σ);
  frame_console : forall c σ, I σ -> I (add_console c σ);
  frame_navigation : forall n σ, I σ -> I (add_navigation n σ)
}.

(** [I] survives a call of [fetch]. *)
Definition sends (I : state -> Prop) : Prop :=
  forall r σ, I σ -> I (add_request r σ).

(** [I] survives [setItem] at [key], [removeItem] at [key], and the
    re-arming of the timer. *)
Definition sets (I : state -> Prop) (key : string) : Prop :=
  forall v σ, I σ -> I (set_localStorage (<[key := v]>) σ).

Definition removes (I : state -> Prop) (key : string) : Prop :=
  forall σ, I σ -> I (set_localStorage (delete key) σ).

Definition arms (I : state -> Prop) : Prop :=
  forall refreshToken timeoutDuration σ,
    I σ -> final (armRefreshTimer refreshToken timeoutDuration σ) I.

(** The key of a parameter: what stands before its first [=]. *)
Definition key_of (param : string) : string :=
  default EmptyString (Str.split "=" param !! 0%nat).

(** Every pending timer is the one whose handle [this.timeout] holds. *)
Definition one_timer (σ : state) : Prop :=
  forall handle, timers σ !! handle ≠ None -> timeout σ = Some handle.

(** The storage holds [v] at [key] ([None]: nothing). *)
Definition stored (key : string) (v : option text) (σ : state) : Prop :=
  localStorage σ !! key = v.

(** No call of [fetch] was added to [sent]. *)
Definition sent (rs : list request) (σ : state) : Prop := requests σ = rs.

(** The error that an answer of the endpoint makes of the exchange: the
    cause for which [fetch] rejects, or the SyntaxError of a body that is
    not JSON; [None] for a body that parses, whatever the status. *)
Definition failure (answer : response) : option exn :=
  match answer with
  | Rejected cause => Some cause
  | Responded _ Unparsable => Some SyntaxError
  | Responded _ (Parsed _) => None
  end.

(** The members of a response after [carry_forward]. *)
Definition carried (isRefresh : bool) (payload : TokenRequestBody.t)
    (members : gmap string json) : gmap string json :=
  if isRefresh && negb (JS.truthy (members !! "refresh_token")) then
    match TokenRequestBody.refresh_token payload with
    | Some x => <["refresh_token" := x]> members
    | None => delete "refresh_token" members
    end
  else members.

(** The [auth] key holds the record [record], or nothing. *)
Definition record_or_none (key : string) (record : json) (σ : state) : Prop :=
  localStorage σ !! key = Some (Json record) ∨ localStorage σ !! key = None.

(** [expires_at] as [setAuthTokens] computes it at the time [now]. *)
Definition expires_at_of (now : Z) (expires_in : JS.number) (refreshSlack : Z) : json :=
  JS.stringify_number
    (JS.add (JS.Num now)
            (JS.mul (JS.add expires_in (JS.Num refreshSlack)) (JS.Num 1000))).

(** What a run returns and the state in which it ends, with a value for a
    run that does not return normally. *)
Definition returned {A} (c : completion A) (otherwise : A) : A :=
  match c with
  | Normal a _ => a
  | _ => otherwise
  end.

Definition ended {A} (c : completion A) (otherwise : state) : state :=
  match c with
  | Normal _ σ => σ
  | _ => otherwise
  end.

(** ** A page to run the class on *)

Module Demo.

Definition props : AuthServiceProps :=
  {| clientId := "app"; clientSecret := None; contentType := None;
     provider := "https://idp.example"; authorizeEndpoint := None;
     tokenEndpoint := None; logoutEndpoint := None; audience := None;
     redirectUri := Some "https://a/b"; scopes := ["openid"]; prompts := None;
     autoRefresh := Some true; refreshSlack := None;
     localStoragePrefix := None |}.

(** A page at [url] with the storage [stored], no timer, and a clock that
    reads [now], [now + 1], [now + 2], [now + 3] and then stands still. *)
Definition at_url (url : string) (stored : gmap string text) (now : Z) : state :=
  {| localStorage := stored; href := url; timeout := None; timers := ∅;
     next_handle := 1%positive; requests := []; navigations := [];
     console := []; clock := now; ticks := [now + 1; now + 2; now + 3] |}.

Definition new_page (σ : state) : page := {| page_state := σ; in_flight := [] |}.

Definition pkce : json :=
  JObj (<["codeVerifier" := JStr "V"]> (<["codeChallenge" := JStr "C"]> ∅)).

(** A token response: lifetime [expires_in], and a refresh token if any. *)
Definition tokens (expires_in : Z) (refresh_token : option string) : gmap string json :=
  let base := <["access_token" := JStr "A"]>
              (<["id_token" := JStr "I"]>
              (<["token_type" := JStr "Bearer"]>
              (<["expires_in" := JNum expires_in]> ∅))) in
  match refresh_token with
  | Some r => <["refresh_token" := JStr r]> base
  | None => base
  end.

(** The body of an error response of the token endpoint. *)
Definition error_body : json := JObj (<["error" := JStr "invalid_grant"]> ∅).

(** The storage while an authorization is pending. *)
Definition pending : gmap string text :=
  <["pkce" := Json pkce]> (<["preAuthUri" := Plain "https://a/home"]> ∅).

(** The page on which the provider lands with a code, at the time 1000. *)
Definition landing : state := at_url "https://a/b?x=1&code=XYZ&y=2" pending 1000.

(** The same page with no PKCE pair and a session in the storage. *)
Definition stray : state :=
  at_url "https://a/b?code=XYZ"
         (<["auth" := Json (JObj (<["expires_at" := JNum 9000000]>
                                  (tokens 3600 (Some "R0"))))]> ∅)
         1000.

(** A record without a refresh token that expired at 1000. *)
Definition stale : gmap string json :=
  <["expires_at" := JNum 1000]> (tokens 3600 None).

(** A record with a refresh token that expired at 1000. *)
Definition expired : gmap string json :=
  <["expires_at" := JNum 1000]> (tokens 3600 (Some "R0")).

(** A page with a session that expires at 5000, at the time 1000. *)
Definition session : page :=
  new_page (at_url "https://a/b"
                   (<["auth" := Json (JObj (<["expires_at" := JNum 5000]>
                                            (tokens 3600 (Some "R0"))))]> ∅)
                   1000).

(** A stand-in for [jwtDecode]: the claims of a token are its subject. *)
Definition decode (token : json) : exn + json :=
  match token with
  | JStr subject => inr (JObj (<["sub" := JStr subject]> ∅))
  | _ => inl (Error "Invalid token specified")
  end.

(** A record without an ID token. *)
Definition access_only : gmap string json := <["access_token" := JStr "A"]> ∅.

(** A page whose storage also holds a key of the application. *)
Definition with_theme : page :=
  new_page (at_url "https://a/b"
                   (<["theme" := Plain "dark"]>
                    (<["auth" := Json (JObj (<["expires_at" := JNum 5000]>
                                             (tokens 3600 (Some "R0"))))]> ∅))
                   1000).

(** The payload of a code exchange. *)
Definition code_payload : TokenRequestBody.t :=
  {| TokenRequestBody.clientId := "app";
     TokenRequestBody.grantType := "authorization_code";
     TokenRequestBody.redirectUri := Some "https://a/b";
     TokenRequestBody.refresh_token := None;
     TokenRequestBody.clientSecret := None;
     TokenRequestBody.code := Some (JStr "XYZ");
     TokenRequestBody.codeVerifier := Some (JStr "V") |}.

End Demo.

(** * Properties *)

(** ** Splitting and joining *)

Module StrFacts.
Import Str.

Lemma split_not_nil sep s : split sep s ≠ [].
Proof.
  destruct s as [|a s]; simpl; [done|].
  destruct (Ascii.eqb a sep); [done|].
  by destruct (split sep s).
Qed.

(** Joining the pieces of a split gives the string back. *)
Lemma join_split sep s : join (String sep EmptyString) (split sep s) = s.
Proof.
  induction s as [|a s IH]; [done|].
  simpl split. destruct (Ascii.eqb_spec a sep) as [->|_].
  - pose proof (split_not_nil sep s) as Hne.
    destruct (split sep s) as [|piece pieces] eqn:E; [done|].
    change (join (String sep EmptyString) (EmptyString :: piece :: pieces))
      with (String sep (join (String sep EmptyString) (piece :: pieces))).
    by rewrite IH.
  - destruct (split sep s) as [|piece pieces] eqn:E.
    + by destruct (split_not_nil sep s).
    + destruct pieces as [|piece' pieces].
      * simpl in *. by rewrite IH.
      * change (join (String sep EmptyString) (String a piece :: piece' :: pieces))
          with (String a (join (String sep EmptyString) (piece :: piece' :: pieces))).
        by rewrite IH.
Qed.

Lemma split_without sep s : has sep s = false → split sep s = [s].
Proof.
  induction s as [|a s IH]; [done|].
  simpl. destruct (Ascii.eqb a sep); [done|].
  simpl. intros H. by rewrite IH.
Qed.

Lemma split_app sep s t :
  has sep s = false → split sep (s ++ String sep t) = s :: split sep t.
Proof.
  induction s as [|a s IH]; simpl.
  - intros _. by rewrite Ascii.eqb_refl.
  - destruct (Ascii.eqb a sep); [done|].
    simpl. intros H. by rewrite IH.
Qed.

(** The first piece of a split is what stands before the first separator. *)
Lemma split_head_no_sep sep s piece pieces :
  split sep s = piece :: pieces → has sep piece = false.
Proof.
  revert piece pieces. induction s as [|a s IH]; simpl; intros piece pieces.
  - by intros [= <- <-].
  - destruct (Ascii.eqb a sep) eqn:Ea.
    + by intros [= <- <-].
    + destruct (split sep s) as [|q qs] eqn:E.
      * intros [= <- <-]. simpl. by rewrite Ea.
      * intros [= <- <-]. simpl. rewrite Ea. simpl. by apply (IH q qs).
Qed.

Lemma append_inj_r (prefix a b : string) : prefix ++ a = prefix ++ b → a = b.
Proof. induction prefix as [|c prefix IH]; simpl; [done|]. intros [= H]. auto. Qed.

End StrFacts.

(** ** The code parameter *)

Lemma not_code_key param :
  not_code (Str.split "=" param) = negb (bool_decide (key_of param = "code")).
Proof.
  unfold not_code, key_of. pose proof (StrFacts.split_not_nil "=" param).
  destruct (Str.split "=" param) as [|k rest]; [done|]. simpl.
  f_equal. apply bool_decide_ext. split; [by intros [= ->]|by intros ->].
Qed.

(** The scan stops at the first parameter whose key is [code], and gives
    the piece between its first and its second [=], decoded. *)
Lemma scan_pairs_first before param after :
  Forall (fun p => key_of p ≠ "code") before →
  key_of param = "code" →
  scan_pairs (before ++ param :: after) =
    match URI.decodeURIComponent
            (Str.or_else (Str.split "=" param !! 1%nat) EmptyString) with
    | Some code => inr (Some code)
    | None => inl URIError
    end.
Proof.
  intros Hbefore Hkey. induction Hbefore as [|p before Hp _ IH]; simpl.
  - rewrite bool_decide_true; [done|].
    unfold key_of in Hkey. pose proof (StrFacts.split_not_nil "=" param).
    destruct (Str.split "=" param); [done|]. simpl in *. by rewrite Hkey.
  - rewrite bool_decide_false; [done|].
    unfold key_of in Hp. intros E. rewrite E in Hp. by apply Hp.
Qed.

(** What [removeCodeFromLocation] keeps of a query: the parameters whose key
    is not [code], as they are and in their order. *)
Lemma newSearch_filter search :
  newSearch search =
    Str.join "&"
      (List.filter (fun p => negb (bool_decide (key_of p = "code")))
                   (Str.split "&" search)).
Proof.
  unfold newSearch. f_equal.
  induction (Str.split "&" search) as [|p ps IH]; [done|].
  simpl. rewrite not_code_key.
  destruct (negb (bool_decide (key_of p = "code"))); simpl.
  - by rewrite StrFacts.join_split, IH.
  - apply IH.
Qed.

(** On a URL with one [?], [removeCodeFromLocation] keeps the base and the
    other parameters, and no [?] when nothing is kept. *)
Lemma code_removed_one_query base search :
  Str.has "?" base = false → Str.has "?" search = false → search ≠ EmptyString →
  code_removed (base ++ "?" ++ search) =
    Some (base ++ match newSearch search with
                  | EmptyString => EmptyString
                  | kept => "?" ++ kept
                  end).
Proof.
  intros Hbase Hsearch Hne. unfold code_removed.
  change (base ++ "?" ++ search) with (base ++ String "?" search).
  rewrite StrFacts.split_app by done.
  rewrite StrFacts.split_without by done. simpl.
  destruct search as [|c search]; [done|]. simpl.
  by destruct (newSearch (String c search)).
Qed.

(** C3, at a code with a literal [=]: the scan returns the value cut at its
    first [=], not the value. *)
Theorem C3_code_cut_at_equals_sign :
  getCodeFromLocation "https://a/b?code=QUJDRA==&state=s" = inr (Some "QUJDRA").
Proof. reflexivity. Qed.

(** C5, at a URL whose query holds a second [?]: [removeCodeFromLocation]
    drops the code and cuts the parameter [next] at the [?] of its value. *)
Theorem C5_parameter_cut_at_question_mark :
  code_removed "https://a/b?code=ABC&next=/x?y=1" = Some "https://a/b?next=/x".
Proof. reflexivity. Qed.

(** The example of the specification. *)
Example code_removed_example :
  code_removed "https://a/b?x=1&code=ABC&y=2" = Some "https://a/b?x=1&y=2"
  ∧ code_removed "https://a/b?code=ABC" = Some "https://a/b".
Proof. split; reflexivity. Qed.

(** ** Invariants of the methods *)

Section Stable.

Context {I : state -> Prop}.

Lemma bind_run {A B} (m : M A) (f : A -> M B) σ :
  (m ≫= f) σ = match m σ with
               | Normal a σ' => f a σ'
               | Throw e σ' => Throw e σ'
               | Unmodelled => Unmodelled
               end.
Proof. reflexivity. Qed.

Lemma stable_bind {A B} (m : M A) (f : A -> M B) :
  stable I m -> (forall a, stable I (f a)) -> stable I (m ≫= f).
Proof.
  intros Hm Hf σ Hσ. rewrite bind_run. specialize (Hm σ Hσ).
  destruct (m σ) as [a σ'|e σ'|]; simpl in *; [by apply Hf|done|done].
Qed.

Lemma stable_ret {A} (a : A) : stable I (mret a).
Proof. by intros σ Hσ. Qed.

Lemma stable_throw {A} (e : exn) : stable I (@throw A e).
Proof. by intros σ Hσ. Qed.

Lemma stable_unmodelled {A} : stable I (@unmodelled A).
Proof. by intros σ Hσ. Qed.

Lemma stable_lift {A} (r : exn + A) : stable I (lift r).
Proof. destruct r; [apply stable_throw|apply stable_ret]. Qed.

Lemma stable_gets {A} (f : state -> A) : stable I (gets f).
Proof. by intros σ Hσ. Qed.

Lemma stable_modify (f : state -> state) :
  (forall σ, I σ -> I (f σ)) -> stable I (modify f).
Proof. intros Hf σ Hσ. by apply Hf. Qed.

Lemma stable_then_catch {A} (p : M A) (on_ok : A -> M unit) (on_err : exn -> M unit) :
  stable I p -> (forall a, stable I (on_ok a)) -> (forall e, stable I (on_err e)) ->
  stable I (then_catch p on_ok on_err).
Proof.
  intros Hp Hok Herr σ Hσ. unfold then_catch. specialize (Hp σ Hσ).
  destruct (p σ) as [a σ1|e σ1|]; simpl in *; [|by apply Herr|done].
  specialize (Hok a σ1 Hp).
  destruct (on_ok a σ1) as [[] σ2|e σ2|]; simpl in *; [done|by apply Herr|done].
Qed.

End Stable.

(** Runs the binds and the primitive operations of a method. *)
Ltac run_monad :=
  cbv beta iota zeta delta
    [mbind M_bind mret M_ret throw unmodelled modify gets lift getTime].

(** Takes a method apart along its binds and branches. *)
Ltac stable_step :=
  lazymatch goal with
  | |- stable _ (mbind _ _) => apply stable_bind; [|intros ?]
  | |- stable _ (mret _) => apply stable_ret
  | |- stable _ (throw _) => apply stable_throw
  | |- stable _ unmodelled => apply stable_unmodelled
  | |- stable _ (lift _) => apply stable_lift
  | |- stable _ (gets _) => apply stable_gets
  | |- stable _ (if ?b then _ else _) => destruct b
  | |- stable _ (match ?x with _ => _ end) => destruct x
  end.

Section Methods.

Variable props : AuthServiceProps.
Variable I : state -> Prop.
Hypothesis HI : frame I.

Lemma stable_getTime : stable I getTime.
Proof. intros σ Hσ. by apply (frame_tick I HI). Qed.

Lemma stable_getItem key : stable I (getItem props key).
Proof. apply stable_gets. Qed.

Lemma stable_haveItem key : stable I (haveItem props key).
Proof. unfold haveItem. stable_step; [apply stable_getItem|stable_step]. Qed.

Lemma stable_removeItem key :
  removes I (prefixed props key) -> stable I (removeItem props key).
Proof. intros H. by apply stable_modify. Qed.

Lemma stable_setItem key v :
  sets I (prefixed props key) -> stable I (setItem props key v).
Proof. intros H. apply stable_modify. apply H. Qed.

Lemma stable_removeCodeFromLocation : stable I removeCodeFromLocation.
Proof. apply stable_modify. intros σ. apply (frame_href I HI). Qed.

Lemma stable_getPkce : stable I (getPkce props).
Proof. unfold getPkce. repeat stable_step. apply stable_getItem. Qed.

Lemma stable_getAuthTokens : stable I (getAuthTokens props).
Proof. unfold getAuthTokens. repeat stable_step. apply stable_getItem. Qed.

Lemma stable_setAuthTokens auth :
  sets I (prefixed props "auth") -> stable I (setAuthTokens props auth).
Proof.
  intros H. unfold setAuthTokens.
  stable_step; [apply stable_getTime|].
  stable_step; [stable_step|].
  stable_step; [|stable_step].
  stable_step; [stable_step|]. by apply stable_setItem.
Qed.

Lemma stable_armRefreshTimer refreshToken timeoutDuration :
  arms I -> stable I (armRefreshTimer refreshToken timeoutDuration).
Proof. intros H σ Hσ. by apply H. Qed.

Lemma stable_arm_or_expire refreshToken expiresAt :
  removes I (prefixed props "auth") -> arms I ->
  stable I (arm_or_expire props refreshToken expiresAt).
Proof.
  intros Hrm Harm. unfold arm_or_expire.
  stable_step; [apply stable_getTime|].
  stable_step; [|stable_step].
  stable_step.
  - stable_step; [stable_step|by apply stable_armRefreshTimer].
  - stable_step; [by apply stable_removeItem|apply stable_removeCodeFromLocation].
Qed.

Lemma stable_startTimer :
  removes I (prefixed props "auth") -> arms I -> stable I (startTimer props).
Proof.
  intros Hrm Harm. unfold startTimer, isAuthenticated.
  stable_step; [apply stable_haveItem|].
  stable_step; [stable_step|].
  stable_step; [apply stable_getAuthTokens|].
  stable_step; [stable_step|].
  stable_step; [stable_step|].
  stable_step; [stable_step|by apply stable_arm_or_expire].
Qed.

Lemma stable_restoreUri :
  removes I (prefixed props "preAuthUri") -> stable I (restoreUri props).
Proof.
  intros Hrm. unfold restoreUri.
  stable_step; [apply stable_getItem|].
  stable_step; [by apply stable_removeItem|].
  stable_step; [apply stable_modify, (frame_console I HI)|].
  stable_step; [|apply stable_removeCodeFromLocation].
  stable_step; [apply stable_modify, (frame_navigation I HI)|stable_step].
Qed.

Lemma stable_logout shouldEndSession :
  removes I (prefixed props "pkce") -> removes I (prefixed props "auth") ->
  stable I (logout props shouldEndSession).
Proof.
  intros Hpkce Hauth. unfold logout.
  stable_step; [by apply stable_removeItem|].
  stable_step; [by apply stable_removeItem|].
  stable_step; (stable_step; [apply stable_modify, (frame_navigation I HI)|stable_step]).
Qed.

Lemma stable_authorize pkce :
  sets I (prefixed props "pkce") -> sets I (prefixed props "preAuthUri") ->
  removes I (prefixed props "auth") -> stable I (authorize props pkce).
Proof.
  intros Hpkce Huri Hauth. unfold authorize.
  stable_step; [by apply stable_setItem|].
  stable_step; [stable_step|].
  stable_step; [by apply stable_setItem|].
  stable_step; [by apply stable_removeItem|].
  stable_step; [stable_step|].
  apply stable_modify, (frame_navigation I HI).
Qed.

Lemma stable_fetchToken_request code isRefresh :
  sends I -> stable I (fetchToken_request props code isRefresh).
Proof.
  intros Hsends. unfold fetchToken_request.
  stable_step.
  - stable_step; [stable_step|].
    stable_step; [apply stable_getPkce|].
    stable_step; stable_step.
  - stable_step; [apply stable_modify, Hsends|stable_step].
Qed.

Lemma stable_carry_forward isRefresh payload parsed :
  stable I (carry_forward isRefresh payload parsed).
Proof. unfold carry_forward. repeat stable_step. Qed.

Lemma stable_fetchToken_response payload isRefresh answer :
  removes I (prefixed props "pkce") -> sets I (prefixed props "auth") ->
  removes I (prefixed props "auth") -> arms I ->
  stable I (fetchToken_response props payload isRefresh answer).
Proof.
  intros Hpkce Hset Hrm Harm. unfold fetchToken_response.
  stable_step; [stable_step|].
  stable_step; [by apply stable_removeItem|].
  stable_step; [stable_step; stable_step|].
  stable_step; [apply stable_carry_forward|].
  stable_step; [by apply stable_setAuthTokens|].
  stable_step; [|apply stable_getAuthTokens].
  stable_step; [by apply stable_startTimer|stable_step].
Qed.

Lemma stable_refresh_fulfilled tokens :
  removes I (prefixed props "auth") -> arms I ->
  stable I (refresh_fulfilled props tokens).
Proof.
  intros Hrm Harm. unfold refresh_fulfilled.
  stable_step; [stable_step|].
  stable_step; [stable_step|].
  stable_step; [stable_step|by apply stable_arm_or_expire].
Qed.

Lemma stable_refresh_rejected e :
  removes I (prefixed props "auth") -> stable I (refresh_rejected props e).
Proof.
  intros Hrm. unfold refresh_rejected.
  stable_step; [by apply stable_removeItem|].
  stable_step; [apply stable_removeCodeFromLocation|].
  apply stable_modify, (frame_console I HI).
Qed.

Lemma stable_constructor_rejected e :
  removes I (prefixed props "pkce") -> removes I (prefixed props "auth") ->
  stable I (constructor_rejected props e).
Proof.
  intros Hpkce Hauth. unfold constructor_rejected.
  stable_step; [by apply stable_removeItem|].
  stable_step; [by apply stable_removeItem|].
  stable_step; [apply stable_removeCodeFromLocation|].
  apply stable_modify, (frame_console I HI).
Qed.

End Methods.

(** ** At most one refresh timer *)

Lemma frame_one_timer : frame one_timer.
Proof. by split. Qed.

Lemma sets_one_timer key : sets one_timer key.
Proof. by intros v σ. Qed.

Lemma removes_one_timer key : removes one_timer key.
Proof. by intros σ. Qed.

Lemma sends_one_timer : sends one_timer.
Proof. by intros r σ. Qed.

(** After [armRefreshTimer] the timer just set is the only one pending,
    when before it at most the one of [this.timeout] was. *)
Lemma armRefreshTimer_only refreshToken timeoutDuration σ :
  one_timer σ ->
  exists σ',
    armRefreshTimer refreshToken timeoutDuration σ = Normal () σ'
    ∧ timeout σ' = Some (next_handle σ)
    ∧ timers σ' = {[ next_handle σ := (refreshToken, timeoutDuration) ]}.
Proof.
  intros Hone. eexists. split; [reflexivity|]. split; [reflexivity|]. simpl.
  assert ((match timeout σ with
           | Some handle => delete handle (timers σ)
           | None => timers σ
           end) = ∅) as ->; [|done].
  apply map_empty. intros i.
  destruct (timeout σ) as [h|] eqn:Eh.
  - destruct (decide (h = i)) as [->|Hne]; [apply lookup_delete_eq|].
    rewrite lookup_delete_ne by done.
    destruct (timers σ !! i) eqn:Ei; [|done].
    assert (timeout σ = Some i) as Hi by (apply Hone; by rewrite Ei). congruence.
  - destruct (timers σ !! i) eqn:Ei; [|done].
    assert (timeout σ = Some i) as Hi by (apply Hone; by rewrite Ei). congruence.
Qed.

Lemma arms_one_timer : arms one_timer.
Proof.
  intros refreshToken timeoutDuration σ Hone.
  destruct (armRefreshTimer_only refreshToken timeoutDuration σ Hone)
    as (σ' & -> & Hhandle & Htimers). simpl.
  intros handle. rewrite Htimers, Hhandle.
  destruct (decide (next_handle σ = handle)) as [->|Hne]; [done|].
  by rewrite lookup_singleton_ne.
Qed.

Lemma one_timer_size σ : one_timer σ -> (size (timers σ) <= 1)%nat.
Proof.
  intros Hone.
  assert (forall i, timeout σ ≠ Some i -> timers σ !! i = None) as Hnone.
  { intros i Hi. destruct (timers σ !! i) eqn:Ei; [|done].
    destruct Hi. apply Hone. by rewrite Ei. }
  destruct (timeout σ) as [h|] eqn:Eh.
  - destruct (timers σ !! h) as [x|] eqn:Ex.
    + rewrite <- (insert_delete_id (timers σ) h x Ex).
      assert (delete h (timers σ) = ∅) as ->.
      { apply map_empty. intros i.
        destruct (decide (h = i)) as [->|Hne]; [apply lookup_delete_eq|].
        rewrite lookup_delete_ne by done. apply Hnone. congruence. }
      by rewrite insert_empty, map_size_singleton.
    + assert (timers σ = ∅) as ->; [|by rewrite map_size_empty; lia].
      apply map_empty. intros i.
      destruct (decide (h = i)) as [->|Hne]; [done|]. apply Hnone. congruence.
  - assert (timers σ = ∅) as ->; [|by rewrite map_size_empty; lia].
    apply map_empty. intros i. by apply Hnone.
Qed.

Lemma settle_final {A} (c : completion A) (Q : state -> Prop) σ :
  final c Q -> settle c = Some σ -> Q σ.
Proof. destruct c; simpl; intros HQ [= <-]; done. Qed.

Section EventLoopInvariant.

Variable props : AuthServiceProps.
Variable I : state -> Prop.
Hypothesis HI : frame I.
Hypothesis Hsets_pkce : sets I (prefixed props "pkce").
Hypothesis Hsets_auth : sets I (prefixed props "auth").
Hypothesis Hsets_uri : sets I (prefixed props "preAuthUri").
Hypothesis Hremoves_pkce : removes I (prefixed props "pkce").
Hypothesis Hremoves_auth : removes I (prefixed props "auth").
Hypothesis Hremoves_uri : removes I (prefixed props "preAuthUri").
Hypothesis Harms : arms I.
Hypothesis Hsends : sends I.
Hypothesis Hfires :
  forall handle σ, I σ -> I (set_timers (timeout σ) (delete handle) (next_handle σ) σ).
Hypothesis Hloaded : forall url σ, I σ -> I (loaded url σ).

Lemma call_invariant {A} (m : M A) pg pg' :
  stable I m -> I (page_state pg) -> call m pg = Some pg' -> I (page_state pg').
Proof.
  intros Hm Hpg. unfold call.
  destruct (settle (m (page_state pg))) as [σ|] eqn:E; [|done].
  intros [= <-]. simpl. eapply settle_final; [by apply Hm|done].
Qed.

Lemma stable_on_rejected o e : stable I (on_rejected props o e).
Proof.
  destruct o; simpl.
  - by apply stable_constructor_rejected.
  - by apply stable_refresh_rejected.
  - apply stable_ret.
Qed.

Lemma stable_on_fulfilled o tokens : stable I (on_fulfilled props o tokens).
Proof.
  destruct o; simpl.
  - by apply stable_restoreUri.
  - by apply stable_refresh_fulfilled.
  - apply stable_ret.
Qed.

Lemma begin_exchange_invariant o code isRefresh pg pg' :
  I (page_state pg) -> begin_exchange props o code isRefresh pg = Some pg' ->
  I (page_state pg').
Proof.
  intros Hpg. unfold begin_exchange.
  pose proof (stable_fetchToken_request props I code isRefresh Hsends _ Hpg) as Hreq.
  destruct (fetchToken_request props code isRefresh (page_state pg))
    as [payload σ|e σ|]; simpl in Hreq; [by intros [= <-]| |done].
  destruct (settle (on_rejected props o e σ)) as [σ'|] eqn:E; [|done].
  intros [= <-]. simpl. eapply settle_final; [|done]. by apply stable_on_rejected.
Qed.

Lemma step_invariant ev pg pg' :
  I (page_state pg) -> step props ev pg = Some pg' -> I (page_state pg').
Proof.
  intros Hpg. destruct ev; simpl.
  - destruct (getCodeFromLocation url) as [e|[code|]].
    + intros [= <-]. simpl. by apply Hloaded.
    + apply begin_exchange_invariant. simpl. by apply Hloaded.
    + case_bool_decide.
      * apply call_invariant; [by apply stable_startTimer|]. simpl. by apply Hloaded.
      * intros [= <-]. simpl. by apply Hloaded.
  - apply call_invariant; [by apply stable_logout|done].
  - apply call_invariant; [by apply stable_authorize|done].
  - apply call_invariant; [by apply stable_startTimer|done].
  - apply call_invariant; [by apply stable_setAuthTokens|done].
  - apply call_invariant; [by apply stable_restoreUri|done].
  - apply call_invariant; [by apply stable_armRefreshTimer|done].
  - by apply begin_exchange_invariant.
  - destruct (timers (page_state pg) !! handle) as [[refreshToken d]|]; [|done].
    apply begin_exchange_invariant. simpl. by apply Hfires.
  - destruct (in_flight pg !! index) as [ex|]; [|done]. simpl.
    match goal with |- context [settle ?c] => destruct (settle c) as [σ|] eqn:E end;
      [|done].
    intros [= <-]. simpl. eapply settle_final; [|done].
    apply stable_then_catch; [| |by apply stable_on_rejected|done].
    + by apply stable_fetchToken_response.
    + intros tokens. by apply stable_on_fulfilled.
Qed.

Lemma run_invariant events pg pg' :
  I (page_state pg) -> run props events pg = Some pg' -> I (page_state pg').
Proof.
  revert pg. induction events as [|ev events IH]; simpl; intros pg Hpg.
  - by intros [= <-].
  - destruct (step props ev pg) as [pg1|] eqn:E; [|done].
    apply IH. by eapply step_invariant.
Qed.

End EventLoopInvariant.

Lemma one_timer_fires handle σ :
  one_timer σ -> one_timer (set_timers (timeout σ) (delete handle) (next_handle σ) σ).
Proof.
  intros Hone i. simpl. intros Hi. apply Hone.
  destruct (decide (handle = i)) as [->|Hne].
  - by rewrite lookup_delete_eq in Hi.
  - by rewrite lookup_delete_ne in Hi.
Qed.

Lemma one_timer_loaded url σ : one_timer (loaded url σ).
Proof. intros i. simpl. by rewrite lookup_empty. Qed.

Lemma one_timer_none σ : timers σ = ∅ -> one_timer σ.
Proof. intros H i. by rewrite H, lookup_empty. Qed.

(** C8. On a page whose instance has no timer yet, after any sequence of
    events (calls of [startTimer], [armRefreshTimer], [fetchToken],
    [setAuthTokens], [restoreUri], [logout], [authorize], timers that fire,
    answers that arrive, loads) every pending timer is the one of
    [this.timeout], so at most one is pending; and arming once more cancels
    it: the timer just set is then the only one. *)
Theorem C8_at_most_one_timer props events pg pg' :
  timers (page_state pg) = ∅ ->
  run props events pg = Some pg' ->
  one_timer (page_state pg')
  ∧ (size (timers (page_state pg')) <= 1)%nat
  ∧ forall refreshToken timeoutDuration,
      exists σ,
        armRefreshTimer refreshToken timeoutDuration (page_state pg') = Normal () σ
        ∧ timers σ = {[ next_handle (page_state pg') := (refreshToken, timeoutDuration) ]}.
Proof.
  intros Hnone Hrun.
  assert (one_timer (page_state pg')) as Hone.
  { eapply (run_invariant props one_timer); eauto using frame_one_timer,
      sets_one_timer, removes_one_timer, arms_one_timer, sends_one_timer,
      one_timer_fires,
      one_timer_loaded, one_timer_none. }
  split; [done|]. split; [by apply one_timer_size|].
  intros refreshToken timeoutDuration.
  destruct (armRefreshTimer_only refreshToken timeoutDuration _ Hone)
    as (σ & Harm & _ & Htimers).
  by exists σ.
Qed.

(** ** What the methods leave in the storage *)

Lemma prefixed_inj props a b : prefixed props a = prefixed props b -> a = b.
Proof. apply StrFacts.append_inj_r. Qed.

Lemma prefixed_ne props a b : a ≠ b -> prefixed props a ≠ prefixed props b.
Proof. intros Hne E. by apply Hne, (prefixed_inj props). Qed.

Lemma frame_stored key v : frame (stored key v).
Proof. by split. Qed.

Lemma arms_stored key v : arms (stored key v).
Proof. by intros refreshToken timeoutDuration σ. Qed.

Lemma sends_stored key v : sends (stored key v).
Proof. by intros r σ. Qed.

Lemma sets_stored key v key' : key ≠ key' -> sets (stored key v) key'.
Proof. intros Hne x σ H. unfold stored in *. simpl. by rewrite lookup_insert_ne. Qed.

Lemma removes_stored key v key' : key ≠ key' -> removes (stored key v) key'.
Proof. intros Hne σ H. unfold stored in *. simpl. by rewrite lookup_delete_ne. Qed.

Lemma removes_stored_none key key' : removes (stored key None) key'.
Proof.
  intros σ H. unfold stored in *. simpl.
  destruct (decide (key' = key)) as [->|Hne]; [apply lookup_delete_eq|].
  by rewrite lookup_delete_ne.
Qed.

Lemma frame_sent rs : frame (sent rs).
Proof. by split. Qed.

Lemma arms_sent rs : arms (sent rs).
Proof. by intros refreshToken timeoutDuration σ. Qed.

Lemma sets_sent rs key : sets (sent rs) key.
Proof. by intros v σ. Qed.

Lemma removes_sent rs key : removes (sent rs) key.
Proof. by intros σ. Qed.

(** The keys that an exchange leaves alone. *)
Lemma stable_stored_fetchToken props key v code isRefresh answer :
  key ≠ prefixed props "pkce" -> key ≠ prefixed props "auth" ->
  stable (stored key v) (fetchToken props code isRefresh answer).
Proof.
  intros Hpkce Hauth. unfold fetchToken. apply stable_bind.
  - apply stable_fetchToken_request, sends_stored.
  - intros payload.
    apply stable_fetchToken_response;
      auto using frame_stored, removes_stored, sets_stored, arms_stored.
Qed.

(** The request of an exchange is built without a conversion to a number. *)
Lemma fetchToken_request_modelled props code isRefresh σ :
  fetchToken_request props code isRefresh σ ≠ Unmodelled.
Proof.
  unfold fetchToken_request. rewrite bind_run.
  destruct isRefresh; [done|].
  rewrite bind_run. unfold getPkce. rewrite bind_run. simpl.
  destruct (localStorage σ !! prefixed props "pkce") as [[s|v]|]; simpl; try done.
  rewrite bind_run. by destruct v.
Qed.

#[local] Arguments fetchToken : simpl never.
#[local] Arguments strip_code : simpl never.

(** ** C10: a code without a PKCE pair *)

Lemma constructor_with_code props answer σ code :
  getCodeFromLocation (href σ) = inr (Some code) ->
  constructor props answer σ
    = then_catch (fetchToken props (Some (JStr code)) false answer)
                 (fun _ => restoreUri props) (constructor_rejected props) σ.
Proof.
  intros Hcode. unfold constructor. rewrite bind_run. simpl.
  by rewrite Hcode.
Qed.

(** C10. When the location carries a code and the storage has no [pkce],
    [fetchToken] throws "PKCE pair not found in local storage" with no call
    of [fetch], and the constructor, through its failure handler, ends with
    no [auth] in the storage, whatever was there. *)
Theorem C10_stray_code_ends_session props answer σ code :
  getCodeFromLocation (href σ) = inr (Some code) ->
  localStorage σ !! prefixed props "pkce" = None ->
  fetchToken props (Some (JStr code)) false answer σ
    = Throw (Error "PKCE pair not found in local storage") σ
  ∧ exists σ',
      constructor props answer σ = Normal () σ'
      ∧ requests σ' = requests σ
      ∧ localStorage σ' !! prefixed props "auth" = None
      ∧ localStorage σ' !! prefixed props "pkce" = None
      ∧ href σ' = strip_code (href σ).
Proof.
  intros Hcode Hpkce.
  assert (fetchToken props (Some (JStr code)) false answer σ
          = Throw (Error "PKCE pair not found in local storage") σ) as Hfetch.
  { unfold fetchToken, fetchToken_request, getPkce, getItem.
    rewrite !bind_run. simpl. by rewrite Hpkce. }
  split; [done|].
  rewrite (constructor_with_code props answer σ code Hcode).
  unfold then_catch. rewrite Hfetch.
  eexists. split; [reflexivity|]. simpl.
  split; [done|]. split; [apply lookup_delete_eq|]. split; [|done].
  rewrite lookup_delete_ne by (apply prefixed_ne; done). apply lookup_delete_eq.
Qed.

(** ** C1: an exchange that fails *)

(** C1, as amended. When [fetch] rejects, or the body of the response is not
    JSON, the exchange is rejected and the [auth] key is as it was: once the
    request is sent, [fetchToken] throws the underlying cause; before that it
    can only throw for the request itself. *)
Theorem C1_failed_exchange props code isRefresh answer cause σ :
  failure answer = Some cause ->
  (exists e σ',
     fetchToken props code isRefresh answer σ = Throw e σ'
     ∧ localStorage σ' !! prefixed props "auth" = localStorage σ !! prefixed props "auth")
  ∧ forall payload σ1,
      exists σ1',
        fetchToken_response props payload isRefresh answer σ1 = Throw cause σ1'
        ∧ localStorage σ1' !! prefixed props "auth"
          = localStorage σ1 !! prefixed props "auth".
Proof.
  intros Hfail.
  assert (forall payload σ1, exists σ1',
            fetchToken_response props payload isRefresh answer σ1 = Throw cause σ1'
            ∧ localStorage σ1' !! prefixed props "auth"
              = localStorage σ1 !! prefixed props "auth") as Hresponse.
  { intros payload σ1. destruct answer as [c|status [|v]]; simpl in Hfail; [| |done].
    - injection Hfail as ->. by exists σ1.
    - injection Hfail as <-. eexists. split; [reflexivity|]. simpl.
      apply lookup_delete_ne, prefixed_ne. done. }
  split; [|done].
  unfold fetchToken. rewrite bind_run.
  pose proof (stable_fetchToken_request props
                (stored (prefixed props "auth") (localStorage σ !! prefixed props "auth"))
                code isRefresh (sends_stored _ _) σ eq_refl) as Hreq.
  pose proof (fetchToken_request_modelled props code isRefresh σ) as Hmod.
  destruct (fetchToken_request props code isRefresh σ) as [payload σ1|e σ1|];
    simpl in Hreq; [|by exists e, σ1|done].
  destruct (Hresponse payload σ1) as (σ1' & -> & Hauth).
  exists cause, σ1'. split; [done|]. by rewrite Hauth.
Qed.

(** The status of the response plays no part in the exchange. *)
Lemma fetchToken_response_status props payload isRefresh status status' content :
  fetchToken_response props payload isRefresh (Responded status content)
    = fetchToken_response props payload isRefresh (Responded status' content).
Proof. reflexivity. Qed.

(** ** The state in which an exchange ends *)

Lemma removeItem_run props key σ :
  removeItem props key σ
    = Normal () (set_localStorage (delete (prefixed props key)) σ).
Proof. reflexivity. Qed.

Lemma ret_run {A} (a : A) σ : (mret a : M A) σ = Normal a σ.
Proof. reflexivity. Qed.

Lemma stable_apply {A} (I : state -> Prop) (m : M A) σ :
  stable I m -> I σ -> final (m σ) I.
Proof. intros H. apply H. Qed.

(** After the answer has come, [pkce] is removed first; what holds then and
    is kept by the rest of [fetchToken] holds at the end. *)
Lemma fetchToken_response_final props I payload isRefresh status content σ :
  frame I -> sets I (prefixed props "auth") -> removes I (prefixed props "auth") ->
  arms I ->
  I (set_localStorage (delete (prefixed props "pkce")) σ) ->
  final (fetchToken_response props payload isRefresh (Responded status content) σ) I.
Proof.
  intros HI Hsets Hremoves Harms Hσ. unfold fetchToken_response.
  rewrite bind_run, removeItem_run. cbv beta iota.
  apply stable_apply; [|done].
  stable_step; [stable_step; stable_step|].
  stable_step; [apply stable_carry_forward|].
  stable_step; [by apply stable_setAuthTokens|].
  stable_step; [|by apply stable_getAuthTokens].
  stable_step; [by apply stable_startTimer|stable_step].
Qed.

(** An exchange that succeeds has removed [pkce]. *)
Lemma fetchToken_normal_pkce props code isRefresh answer σ tokens σ' :
  fetchToken props code isRefresh answer σ = Normal tokens σ' ->
  localStorage σ' !! prefixed props "pkce" = None.
Proof.
  unfold fetchToken. rewrite bind_run.
  destruct (fetchToken_request props code isRefresh σ) as [payload σ0|e σ0|];
    [|done|done].
  destruct answer as [cause|status content]; [done|].
  intros Hrun.
  pose proof (fetchToken_response_final props (stored (prefixed props "pkce") None)
                payload isRefresh status content σ0) as Hfinal.
  rewrite Hrun in Hfinal. apply Hfinal.
  - apply frame_stored.
  - apply sets_stored, prefixed_ne. done.
  - apply removes_stored_none.
  - apply arms_stored.
  - apply lookup_delete_eq.
Qed.

Lemma restoreUri_run props σ :
  exists σ',
    restoreUri props σ = Normal () σ'
    ∧ localStorage σ' = delete (prefixed props "preAuthUri") (localStorage σ)
    ∧ href σ' = strip_code (href σ).
Proof.
  unfold restoreUri, getItem. rewrite !bind_run. simpl.
  destruct (localStorage σ !! prefixed props "preAuthUri"); by eexists.
Qed.

Lemma constructor_rejected_run props e σ :
  exists σ',
    constructor_rejected props e σ = Normal () σ'
    ∧ localStorage σ'
      = delete (prefixed props "auth") (delete (prefixed props "pkce") (localStorage σ))
    ∧ href σ' = strip_code (href σ).
Proof. by eexists. Qed.

(** ** C2: what the constructor deletes once the exchange is settled *)

(** C2, as amended. When the location carries a code, the constructor ends
    normally once the exchange is settled, and [pkce] is then deleted whether
    the exchange succeeded or failed; [preAuthUri] is deleted when it
    succeeded. *)
Theorem C2_keys_after_exchange props answer σ code :
  getCodeFromLocation (href σ) = inr (Some code) ->
  match fetchToken props (Some (JStr code)) false answer σ with
  | Normal _ _ =>
      exists σ',
        constructor props answer σ = Normal () σ'
        ∧ localStorage σ' !! prefixed props "pkce" = None
        ∧ localStorage σ' !! prefixed props "preAuthUri" = None
  | Throw _ _ =>
      exists σ',
        constructor props answer σ = Normal () σ'
        ∧ localStorage σ' !! prefixed props "pkce" = None
  | Unmodelled => constructor props answer σ = Unmodelled
  end.
Proof.
  intros Hcode. rewrite (constructor_with_code props answer σ code Hcode).
  unfold then_catch.
  destruct (fetchToken props (Some (JStr code)) false answer σ)
    as [tokens σ1|e σ1|] eqn:Hfetch; [| |done].
  - destruct (restoreUri_run props σ1) as (σ2 & -> & Hstorage & _).
    exists σ2. split; [done|]. rewrite Hstorage. split.
    + rewrite lookup_delete_ne by (apply prefixed_ne; done).
      by eapply fetchToken_normal_pkce.
    + apply lookup_delete_eq.
  - destruct (constructor_rejected_run props e σ1) as (σ2 & -> & Hstorage & _).
    exists σ2. split; [done|]. rewrite Hstorage.
    rewrite lookup_delete_ne by (apply prefixed_ne; done). apply lookup_delete_eq.
Qed.

(** When the exchange fails, the constructor leaves [preAuthUri] as it was:
    its failure handler removes [pkce] and [auth] only. *)
Lemma constructor_failure_keeps_preAuthUri props answer σ code e σ1 :
  getCodeFromLocation (href σ) = inr (Some code) ->
  fetchToken props (Some (JStr code)) false answer σ = Throw e σ1 ->
  exists σ',
    constructor props answer σ = Normal () σ'
    ∧ localStorage σ' !! prefixed props "preAuthUri"
      = localStorage σ !! prefixed props "preAuthUri".
Proof.
  intros Hcode Hfetch. rewrite (constructor_with_code props answer σ code Hcode).
  unfold then_catch.
  pose proof (stable_stored_fetchToken props (prefixed props "preAuthUri")
                (localStorage σ !! prefixed props "preAuthUri")
                (Some (JStr code)) false answer) as Huri.
  specialize (Huri ltac:(by apply prefixed_ne) ltac:(by apply prefixed_ne) σ eq_refl).
  rewrite Hfetch in *.
  destruct (constructor_rejected_run props e σ1) as (σ2 & -> & Hstorage & _).
  exists σ2. split; [done|]. rewrite Hstorage.
  rewrite !lookup_delete_ne by (apply prefixed_ne; done). apply Huri.
Qed.

(** ** The record that a successful exchange persists *)

Lemma carry_forward_object isRefresh payload members σ :
  carry_forward isRefresh payload (JObj members) σ
    = Normal (JObj (carried isRefresh payload members)) σ.
Proof.
  unfold carry_forward, carried. destruct isRefresh; [|done].
  rewrite bind_run. simpl.
  destruct (JS.truthy (members !! "refresh_token")); [done|]. simpl.
  by destruct (TokenRequestBody.refresh_token payload).
Qed.

Lemma carried_lookup_ne isRefresh payload members name :
  name ≠ "refresh_token" ->
  carried isRefresh payload members !! name = members !! name.
Proof.
  intros Hne. unfold carried.
  destruct (isRefresh && negb (JS.truthy (members !! "refresh_token"))); [|done].
  destruct (TokenRequestBody.refresh_token payload).
  - by rewrite lookup_insert_ne.
  - by rewrite lookup_delete_ne.
Qed.

Lemma carried_refresh_token payload members :
  members !! "refresh_token" = None ->
  carried true payload members !! "refresh_token"
    = TokenRequestBody.refresh_token payload.
Proof.
  intros Hnone. unfold carried. rewrite Hnone. simpl.
  destruct (TokenRequestBody.refresh_token payload).
  - apply lookup_insert_eq.
  - apply lookup_delete_eq.
Qed.

(** [setAuthTokens] on an object. *)
Lemma setAuthTokens_object props members σ :
  setAuthTokens props (JObj members) σ =
    match JS.ToNumber (members !! "expires_in") with
    | Some expires_in =>
        Normal ()
          (set_localStorage
             (<[prefixed props "auth" :=
                  Json (JObj (<["expires_at" :=
                                  expires_at_of (clock σ) expires_in
                                                (default 5 (refreshSlack props))]>
                              members))]>)
             (tick σ))
    | None => Unmodelled
    end.
Proof.
  unfold setAuthTokens, setItem, JS.member, JS.assign. run_monad.
  by destruct (JS.ToNumber (members !! "expires_in")).
Qed.

Lemma frame_record_or_none key record : frame (record_or_none key record).
Proof. by split. Qed.

Lemma arms_record_or_none key record : arms (record_or_none key record).
Proof. by intros refreshToken timeoutDuration σ. Qed.

Lemma removes_record_or_none key record : removes (record_or_none key record) key.
Proof. intros σ _. right. apply lookup_delete_eq. Qed.

(** What [fetchToken] does after [setAuthTokens]: the record returned is the
    one persisted, and it is still there. *)
Lemma after_setAuthTokens props (arm : bool) record σ tokens σ' :
  localStorage σ !! prefixed props "auth" = Some (Json record) ->
  ((if arm then startTimer props else mret ());; getAuthTokens props) σ
    = Normal tokens σ' ->
  tokens = record ∧ localStorage σ' !! prefixed props "auth" = Some (Json tokens).
Proof.
  intros Hauth. rewrite bind_run.
  assert (stable (record_or_none (prefixed props "auth") record)
                 (if arm then startTimer props else mret ())) as Hstable.
  { destruct arm; [|apply stable_ret].
    apply stable_startTimer;
      auto using frame_record_or_none, removes_record_or_none, arms_record_or_none. }
  specialize (Hstable σ (or_introl Hauth)).
  destruct ((if arm then startTimer props else mret ()) σ) as [[] σ1|e σ1|];
    simpl in Hstable; [|done|done].
  unfold getAuthTokens, getItem. run_monad.
  destruct Hstable as [Hs | Hs]; rewrite Hs; simpl; [|done].
  by intros [= <- <-].
Qed.

(** A successful exchange whose body is an object: the record persisted and
    returned is the body after [carry_forward], with [expires_at] computed at
    the first reading of the clock. *)
Lemma fetchToken_response_success props payload isRefresh status members σ tokens σ' :
  fetchToken_response props payload isRefresh
    (Responded status (Parsed (JObj members))) σ = Normal tokens σ' ->
  exists expires_in,
    JS.ToNumber (carried isRefresh payload members !! "expires_in") = Some expires_in
    ∧ tokens = JObj (<["expires_at" :=
                         expires_at_of (clock σ) expires_in
                                       (default 5 (refreshSlack props))]>
                     (carried isRefresh payload members))
    ∧ localStorage σ' !! prefixed props "auth" = Some (Json tokens).
Proof.
  unfold fetchToken_response.
  rewrite bind_run, removeItem_run. cbv beta iota.
  rewrite bind_run, ret_run. cbv beta iota.
  rewrite bind_run, carry_forward_object. cbv beta iota.
  rewrite bind_run, setAuthTokens_object.
  destruct (JS.ToNumber (carried isRefresh payload members !! "expires_in"))
    as [expires_in|]; [|done].
  cbv beta iota. intros Hrest. exists expires_in. split; [done|].
  by destruct (after_setAuthTokens props _ _ _ _ _ (lookup_insert_eq _ _ _) Hrest)
    as [-> Hstored].
Qed.

(** [startTimer] on a stored object: the guard on the two members, then the
    comparison with the clock. *)
Lemma startTimer_record props σ members :
  localStorage σ !! prefixed props "auth" = Some (Json (JObj members)) ->
  startTimer props σ =
    if negb (JS.truthy (members !! "expires_at"))
       || negb (JS.truthy (members !! "refresh_token"))
    then Normal () σ
    else arm_or_expire props (members !! "refresh_token") (members !! "expires_at") σ.
Proof.
  intros Hauth. unfold startTimer, isAuthenticated, haveItem, getAuthTokens, getItem.
  run_monad. rewrite Hauth. rewrite bool_decide_true by done. simpl.
  rewrite Hauth. simpl.
  by destruct (negb (JS.truthy (members !! "expires_at"))
               || negb (JS.truthy (members !! "refresh_token"))).
Qed.

(** The guard: a record without a truthy [expires_at] or without a truthy
    [refresh_token] is left as it is, expired or not. *)
Lemma startTimer_guard props σ members :
  localStorage σ !! prefixed props "auth" = Some (Json (JObj members)) ->
  JS.truthy (members !! "expires_at") = false
  ∨ JS.truthy (members !! "refresh_token") = false ->
  startTimer props σ = Normal () σ.
Proof.
  intros Hauth Hguard. rewrite (startTimer_record props σ members Hauth).
  destruct Hguard as [-> | ->]; [done|]. by rewrite orb_true_r.
Qed.

Lemma arm_or_expire_number props refreshToken expires_at σ :
  arm_or_expire props refreshToken (Some (JNum expires_at)) σ =
    if 0 <? expires_at - clock σ
    then armRefreshTimer refreshToken (expires_at - clock σ) (tick σ)
    else Normal ()
           (set_href (strip_code (href σ))
              (set_localStorage (delete (prefixed props "auth")) (tick σ))).
Proof.
  unfold arm_or_expire. run_monad. simpl.
  by destruct (0 <? expires_at - clock σ).
Qed.

(** An exchange on an object whose [expires_in] is a number returns, when
    the timer is not to be armed or the record has not expired by the time
    [startTimer] reads the clock. *)
Lemma fetchToken_response_returns props payload isRefresh status members n σ :
  members !! "expires_in" = Some (JNum n) ->
  autoRefresh props = Some false
  ∨ 0 < clock σ + (n + default 5 (refreshSlack props)) * 1000 - clock (tick σ) ->
  exists tokens σ',
    fetchToken_response props payload isRefresh
      (Responded status (Parsed (JObj members))) σ = Normal tokens σ'.
Proof.
  intros Hn Hlive. unfold fetchToken_response.
  rewrite bind_run, removeItem_run. cbv beta iota.
  rewrite bind_run, ret_run. cbv beta iota.
  rewrite bind_run, carry_forward_object. cbv beta iota.
  rewrite bind_run, setAuthTokens_object.
  rewrite carried_lookup_ne, Hn by done.
  change (JS.ToNumber (Some (JNum n))) with (Some (JS.Num n)). cbv beta iota.
  set (record := <["expires_at" := _]> (carried isRefresh payload members)).
  set (σ2 := set_localStorage _ (tick _)).
  assert (localStorage σ2 !! prefixed props "auth" = Some (Json (JObj record)))
    as Hstored by apply lookup_insert_eq.
  assert (forall σ3, localStorage σ3 = localStorage σ2 ->
            exists tokens σ', getAuthTokens props σ3 = Normal tokens σ') as Hget.
  { intros σ3 Hσ3. unfold getAuthTokens, getItem. run_monad.
    rewrite Hσ3, Hstored. by do 2 eexists. }
  rewrite bind_run.
  destruct (default true (autoRefresh props)) eqn:Harm.
  - destruct Hlive as [Hoff|Hlive]; [by rewrite Hoff in Harm|].
    rewrite (startTimer_record props σ2 record Hstored).
    destruct (negb (JS.truthy (record !! "expires_at"))
              || negb (JS.truthy (record !! "refresh_token"))); [by apply Hget|].
    unfold record at 2. rewrite lookup_insert_eq.
    change (expires_at_of (clock (set_localStorage (delete (prefixed props "pkce")) σ))
                          (JS.Num n) (default 5 (refreshSlack props)))
      with (JNum (clock σ + (n + default 5 (refreshSlack props)) * 1000)).
    rewrite arm_or_expire_number.
    change (clock σ2) with (clock (tick σ)).
    destruct (0 <? _) eqn:E; [|lia].
    by apply Hget.
  - rewrite ret_run. by apply Hget.
Qed.

(** ** C4: [expires_at] *)

(** C4. For every exchange that succeeds on a response whose [expires_in]
    is the number [n], the record persisted under [auth] (and returned) has
    [expires_at] = the time at which the response is handled
    + ([n] + refreshSlack) * 1000 ms, with refreshSlack 5 unless the props
    give one. *)
Theorem C4_expires_at props payload isRefresh status members n σ tokens σ' :
  members !! "expires_in" = Some (JNum n) ->
  fetchToken_response props payload isRefresh
    (Responded status (Parsed (JObj members))) σ = Normal tokens σ' ->
  localStorage σ' !! prefixed props "auth" = Some (Json tokens)
  ∧ JS.member tokens "expires_at"
    = inr (Some (JNum (clock σ
                       + (n + default 5 (refreshSlack props)) * 1000))).
Proof.
  intros Hn Hrun.
  destruct (fetchToken_response_success _ _ _ _ _ _ _ _ Hrun)
    as (expires_in & Hnum & -> & Hstored).
  split; [done|].
  rewrite carried_lookup_ne, Hn in Hnum by done. injection Hnum as <-.
  simpl. by rewrite lookup_insert_eq.
Qed.

(** [setAuthTokens] itself, on a record whose [expires_in] is a number. *)
Lemma setAuthTokens_expires_at props members n σ :
  members !! "expires_in" = Some (JNum n) ->
  setAuthTokens props (JObj members) σ =
    Normal ()
      (set_localStorage
         (<[prefixed props "auth" :=
              Json (JObj (<["expires_at" :=
                              JNum (clock σ
                                    + (n + default 5 (refreshSlack props)) * 1000)]>
                          members))]>)
         (tick σ)).
Proof. intros Hn. by rewrite setAuthTokens_object, Hn. Qed.

(** With [expires_in] = 3600 and the default slack, issued at [T]:
    [T + 3605000]. *)
Lemma setAuthTokens_3600 props members σ :
  refreshSlack props = None ->
  members !! "expires_in" = Some (JNum 3600) ->
  setAuthTokens props (JObj members) σ =
    Normal ()
      (set_localStorage
         (<[prefixed props "auth" :=
              Json (JObj (<["expires_at" := JNum (clock σ + 3605000)]>
                          members))]>)
         (tick σ)).
Proof. intros Hslack Hn. by rewrite (setAuthTokens_expires_at _ _ _ _ Hn), Hslack. Qed.

(** ** C6: the refresh token is carried forward *)

(** The request of a refresh exchange carries the argument of [fetchToken]
    as [refresh_token]; building it does not throw. *)
Lemma fetchToken_request_refresh props code σ :
  exists payload sent_request,
    fetchToken_request props code true σ
      = Normal payload (add_request sent_request σ)
    ∧ TokenRequestBody.refresh_token payload = code
    ∧ request_payload sent_request = payload.
Proof. by do 2 eexists. Qed.

(** C6. For every refresh exchange that succeeds on a response without
    [refresh_token], the record persisted under [auth] (and returned) has as
    [refresh_token] the one that the request carried, which is the argument
    of [fetchToken]. *)
Theorem C6_refresh_token_carried props code status members σ tokens σ' :
  members !! "refresh_token" = None ->
  fetchToken props code true (Responded status (Parsed (JObj members))) σ
    = Normal tokens σ' ->
  localStorage σ' !! prefixed props "auth" = Some (Json tokens)
  ∧ JS.member tokens "refresh_token" = inr code
  ∧ exists sent_request,
      head (requests σ') = Some sent_request
      ∧ TokenRequestBody.refresh_token (request_payload sent_request) = code.
Proof.
  intros Hnone. unfold fetchToken. rewrite bind_run.
  destruct (fetchToken_request_refresh props code σ)
    as (payload & sent_request & -> & Hcode & Hpayload).
  intros Hrun.
  pose proof (fetchToken_response_final props
                (sent (sent_request :: requests σ)) payload true status
                (Parsed (JObj members)) (add_request sent_request σ)
                (frame_sent _) (sets_sent _ _) (removes_sent _ _) (arms_sent _)
                eq_refl) as Hsent.
  rewrite Hrun in Hsent. simpl in Hsent.
  destruct (fetchToken_response_success _ _ _ _ _ _ _ _ Hrun)
    as (expires_in & _ & -> & Hstored).
  split; [done|]. split.
  - simpl. rewrite lookup_insert_ne by done.
    by rewrite carried_refresh_token, Hcode.
  - unfold sent in Hsent. rewrite Hsent. exists sent_request.
    split; [done|]. by rewrite Hpayload.
Qed.

(** ** C7: a record that has expired *)

(** C7, as amended. When the record under [auth] has a truthy
    [refresh_token] and a numeric [expires_at] other than 0 that is not after
    the time read by [startTimer], [startTimer] deletes the record and strips
    the code from the location; it sets no timer and sends no request. *)
Theorem C7_expired_record_deleted props σ members expires_at refresh_token :
  localStorage σ !! prefixed props "auth" = Some (Json (JObj members)) ->
  members !! "expires_at" = Some (JNum expires_at) ->
  expires_at ≠ 0 ->
  members !! "refresh_token" = Some refresh_token ->
  JS.truthy (Some refresh_token) = true ->
  expires_at - clock σ <= 0 ->
  exists σ',
    startTimer props σ = Normal () σ'
    ∧ localStorage σ' = delete (prefixed props "auth") (localStorage σ)
    ∧ href σ' = strip_code (href σ)
    ∧ timers σ' = timers σ
    ∧ timeout σ' = timeout σ
    ∧ requests σ' = requests σ.
Proof.
  intros Hauth Hat Hnz Hrt Htruthy Hpast.
  rewrite (startTimer_record props σ members Hauth), Hat, Hrt, Htruthy.
  simpl. destruct (expires_at =? 0) eqn:E; [lia|]. simpl.
  rewrite arm_or_expire_number.
  destruct (0 <? expires_at - clock σ) eqn:E'; [lia|].
  by eexists.
Qed.

(** * The properties on concrete pages *)

(** For a goal [exists a σ', m σ = Normal a σ' ∧ _]: runs [m σ], gives what
    it returns and the state in which it ends, and passes the equation
    to [k]. *)
Ltac run_to_end otherwise k :=
  lazymatch goal with
  | |- exists a σ', ?m ?σ = Normal a σ' ∧ _ =>
      exists (returned (m σ) otherwise), (ended (m σ) σ);
      let Hrun := fresh "Hrun" in
      assert (m σ = Normal (returned (m σ) otherwise) (ended (m σ) σ)) as Hrun
        by (vm_compute; reflexivity);
      k Hrun
  end.

(** C1, as stated, fails: the token endpoint answers a code exchange with
    the status 400 and the JSON body of an error; [fetchToken] returns
    normally and the body is persisted under [auth]. *)
Lemma C1_error_body_persisted :
  match fetchToken Demo.props (Some (JStr "XYZ")) false
          (Responded 400 (Parsed Demo.error_body)) Demo.landing with
  | Normal tokens σ' =>
      tokens = JObj (<["expires_at" := JNull]> (<["error" := JStr "invalid_grant"]> ∅))
      ∧ localStorage σ' !! "auth" = Some (Json tokens)
  | Throw _ _ => False
  | Unmodelled => False
  end.
Proof. vm_compute. split; reflexivity. Qed.

Lemma C1_witness :
  failure (Responded 502 Unparsable) = Some SyntaxError
  ∧ exists e σ',
      fetchToken Demo.props (Some (JStr "XYZ")) false (Responded 502 Unparsable)
                 Demo.landing = Throw e σ'
      ∧ localStorage σ' !! prefixed Demo.props "auth"
        = localStorage Demo.landing !! prefixed Demo.props "auth".
Proof.
  split; [reflexivity|].
  exact (proj1 (C1_failed_exchange Demo.props (Some (JStr "XYZ")) false
                  (Responded 502 Unparsable) SyntaxError Demo.landing eq_refl)).
Defined.

(** C2, as stated, fails: the provider lands with a code, [pkce] and
    [preAuthUri] are stored, and the token endpoint answers with a body that
    is not JSON; after the constructor's chain [preAuthUri] is still stored. *)
Lemma C2_preAuthUri_left_on_failure :
  match constructor Demo.props (Responded 502 Unparsable) Demo.landing with
  | Normal _ σ' =>
      localStorage σ' !! "preAuthUri" = Some (Plain "https://a/home")
      ∧ localStorage σ' !! "pkce" = None
  | Throw _ _ => False
  | Unmodelled => False
  end.
Proof. vm_compute. split; reflexivity. Qed.

Lemma C2_witness :
  getCodeFromLocation (href Demo.landing) = inr (Some "XYZ")
  ∧ exists σ',
      constructor Demo.props
        (Responded 200 (Parsed (JObj (Demo.tokens 3600 (Some "R1"))))) Demo.landing
        = Normal () σ'
      ∧ localStorage σ' !! prefixed Demo.props "pkce" = None
      ∧ localStorage σ' !! prefixed Demo.props "preAuthUri" = None.
Proof.
  split; [vm_compute; reflexivity|].
  pose proof (C2_keys_after_exchange Demo.props
                (Responded 200 (Parsed (JObj (Demo.tokens 3600 (Some "R1")))))
                Demo.landing "XYZ" ltac:(vm_compute; reflexivity)) as H.
  assert (fetchToken Demo.props (Some (JStr "XYZ")) false
            (Responded 200 (Parsed (JObj (Demo.tokens 3600 (Some "R1")))))
            Demo.landing
          = Normal (returned (fetchToken Demo.props (Some (JStr "XYZ")) false
                      (Responded 200 (Parsed (JObj (Demo.tokens 3600 (Some "R1")))))
                      Demo.landing) JNull)
                   (ended (fetchToken Demo.props (Some (JStr "XYZ")) false
                      (Responded 200 (Parsed (JObj (Demo.tokens 3600 (Some "R1")))))
                      Demo.landing) Demo.landing)) as Hfetch
    by (vm_compute; reflexivity).
  rewrite Hfetch in H. exact H.
Defined.

Lemma C4_witness :
  exists tokens σ',
    fetchToken_response Demo.props Demo.code_payload false
      (Responded 200 (Parsed (JObj (Demo.tokens 3600 (Some "R1")))))
      (Demo.at_url "https://a/b?code=XYZ" Demo.pending 1700000000000)
      = Normal tokens σ'
    ∧ JS.member tokens "expires_at" = inr (Some (JNum 1700003605000)).
Proof.
  run_to_end JNull ltac:(fun Hrun =>
    split; [exact Hrun|];
    etransitivity;
      [exact (proj2 (C4_expires_at Demo.props Demo.code_payload false 200
                       (Demo.tokens 3600 (Some "R1")) 3600 _ _ _
                       ltac:(vm_compute; reflexivity) Hrun))
      |vm_compute; reflexivity]).
Defined.

Lemma C6_witness :
  exists tokens σ',
    fetchToken Demo.props (Some (JStr "R0")) true
      (Responded 200 (Parsed (JObj (Demo.tokens 3600 None))))
      (page_state Demo.session) = Normal tokens σ'
    ∧ JS.member tokens "refresh_token" = inr (Some (JStr "R0")).
Proof.
  run_to_end JNull ltac:(fun Hrun =>
    split; [exact Hrun|];
    exact (proj1 (proj2 (C6_refresh_token_carried Demo.props (Some (JStr "R0"))
                           200 (Demo.tokens 3600 None) _ _ _
                           ltac:(vm_compute; reflexivity) Hrun)))).
Defined.

(** C7, as stated, fails: the record under [auth] expired at 1000 and has no
    refresh token; at 2000 [startTimer] returns and the record is still
    stored. *)
Lemma C7_record_without_refresh_token_kept :
  match startTimer Demo.props
          (Demo.at_url "https://a/b" (<["auth" := Json (JObj Demo.stale)]> ∅) 2000) with
  | Normal _ σ' => localStorage σ' !! "auth" = Some (Json (JObj Demo.stale))
  | Throw _ _ => False
  | Unmodelled => False
  end.
Proof. vm_compute. reflexivity. Qed.

Lemma C7_witness :
  exists σ',
    startTimer Demo.props
      (Demo.at_url "https://a/b?code=XYZ" (<["auth" := Json (JObj Demo.expired)]> ∅) 2000)
      = Normal () σ'
    ∧ localStorage σ' !! "auth" = None
    ∧ href σ' = "https://a/b"
    ∧ timers σ' = ∅.
Proof.
  edestruct (C7_expired_record_deleted Demo.props
               (Demo.at_url "https://a/b?code=XYZ"
                            (<["auth" := Json (JObj Demo.expired)]> ∅) 2000)
               Demo.expired 1000 (JStr "R0"))
    as (σ' & Hrun & Hstorage & Hhref & Htimers & _).
  - vm_compute; reflexivity.
  - vm_compute; reflexivity.
  - lia.
  - vm_compute; reflexivity.
  - reflexivity.
  - vm_compute; discriminate.
  - exists σ'. split; [exact Hrun|]. split.
    + rewrite Hstorage. apply lookup_delete_eq.
    + split; [exact Hhref|exact Htimers].
Defined.

Lemma C8_witness :
  exists pg',
    run Demo.props
        [Call_armRefreshTimer (Some (JStr "R1")) 1000;
         Call_armRefreshTimer (Some (JStr "R2")) 2000;
         Call_startTimer]
        Demo.session = Some pg'
    ∧ (size (timers (page_state pg')) <= 1)%nat.
Proof.
  exists (default Demo.session
            (run Demo.props
               [Call_armRefreshTimer (Some (JStr "R1")) 1000;
                Call_armRefreshTimer (Some (JStr "R2")) 2000;
                Call_startTimer]
               Demo.session)).
  refine ((fun Hrun =>
             conj Hrun
               (proj1 (proj2 (C8_at_most_one_timer Demo.props _ Demo.session _
                                ltac:(vm_compute; reflexivity) Hrun)))) _).
  vm_compute. reflexivity.
Defined.

Lemma C10_witness :
  getCodeFromLocation (href Demo.stray) = inr (Some "XYZ")
  ∧ localStorage Demo.stray !! prefixed Demo.props "pkce" = None
  ∧ localStorage Demo.stray !! prefixed Demo.props "auth" ≠ None
  ∧ exists σ',
      constructor Demo.props (Responded 200 (Parsed (JObj (Demo.tokens 3600 None))))
                  Demo.stray = Normal () σ'
      ∧ requests σ' = []
      ∧ localStorage σ' !! prefixed Demo.props "auth" = None.
Proof.
  split; [vm_compute; reflexivity|]. split; [vm_compute; reflexivity|].
  split; [vm_compute; discriminate|].
  destruct (proj2 (C10_stray_code_ends_session Demo.props
                     (Responded 200 (Parsed (JObj (Demo.tokens 3600 None))))
                     Demo.stray "XYZ" ltac:(vm_compute; reflexivity)
                     ltac:(vm_compute; reflexivity)))
    as (σ' & Hrun & Hrequests & Hauth & _).
  exists σ'. split; [exact Hrun|]. split; [exact Hrequests|exact Hauth].
Defined.

(** ** C9: [logout] and the refresh timer *)

(** C9. [logout] leaves the pending timer, [this.timeout] and the exchanges
    in flight as they are, and there is an execution in which that matters:
    a page is loaded with a session, which arms the timer; [logout()] clears
    [auth]; the timer fires and its refresh exchange is answered with a token
    response, which puts a record under [auth] again. *)
Theorem C9_refresh_after_logout :
  (forall props shouldEndSession pg,
     exists pg',
       step props (Call_logout shouldEndSession) pg = Some pg'
       ∧ timers (page_state pg') = timers (page_state pg)
       ∧ timeout (page_state pg') = timeout (page_state pg)
       ∧ in_flight pg' = in_flight pg
       ∧ localStorage (page_state pg') !! prefixed props "auth" = None)
  ∧ exists pg1 pg2 pg3,
      step Demo.props (Load "https://a/b") Demo.session = Some pg1
      ∧ timers (page_state pg1) = {[ 1%positive := (Some (JStr "R0"), 4000) ]}
      ∧ step Demo.props (Call_logout false) pg1 = Some pg2
      ∧ localStorage (page_state pg2) !! "auth" = None
      ∧ timers (page_state pg2) = {[ 1%positive := (Some (JStr "R0"), 4000) ]}
      ∧ run Demo.props
            [Timer_fires 1;
             Answer_arrives 0 (Responded 200 (Parsed (JObj (Demo.tokens 3600 None))))]
            pg2 = Some pg3
      ∧ localStorage (page_state pg3) !! "auth"
        = Some (Json (JObj (<["expires_at" := JNum 3606001]>
                            (Demo.tokens 3600 (Some "R0"))))).
Proof.
  split.
  - intros props shouldEndSession pg. destruct shouldEndSession.
    + eexists. split; [reflexivity|]. simpl. repeat split. apply lookup_delete_eq.
    + eexists. split; [reflexivity|]. simpl. repeat split. apply lookup_delete_eq.
  - exists (default Demo.session (step Demo.props (Load "https://a/b") Demo.session)).
    exists (default Demo.session
              (run Demo.props [Load "https://a/b"; Call_logout false] Demo.session)).
    exists (default Demo.session
              (run Demo.props
                 [Load "https://a/b"; Call_logout false; Timer_fires 1;
                  Answer_arrives 0
                    (Responded 200 (Parsed (JObj (Demo.tokens 3600 None))))]
                 Demo.session)).
    split; [vm_compute; reflexivity|].
    split; [vm_compute; reflexivity|].
    split; [vm_compute; reflexivity|].
    split; [vm_compute; reflexivity|].
    split; [vm_compute; reflexivity|].
    split; vm_compute; reflexivity.
Qed.

(** * Further properties of the class *)

(** ** Strings *)

Module StrMore.
Import Str.

Lemma has_app c s t : has c (s ++ t) = has c s || has c t.
Proof.
  induction s as [|a s IH]; simpl; [done|].
  rewrite IH. by rewrite orb_assoc.
Qed.

Lemma append_nil_r (s : string) : s ++ EmptyString = s.
Proof.
  induction s as [|a s IH]; [done|].
  change (String a (s ++ EmptyString) = String a s). by f_equal.
Qed.

(** No piece of a split holds the separator. *)
Lemma split_pieces sep s : Forall (fun p => has sep p = false) (split sep s).
Proof.
  induction s as [|a s IH]; simpl; [by repeat constructor|].
  destruct (Ascii.eqb a sep) eqn:Ea; [by constructor|].
  destruct (split sep s) as [|q qs]; [by repeat constructor; simpl; rewrite Ea|].
  inversion IH as [|? ? Hq Hqs]; subst.
  constructor; [|done]. simpl. by rewrite Ea.
Qed.

(** A character that a string does not hold is in none of its pieces. *)
Lemma split_pieces_without c sep s :
  has c s = false -> Forall (fun p => has c p = false) (split sep s).
Proof.
  induction s as [|a s IH]; simpl; [by repeat constructor|].
  intros [Ha Hs]%orb_false_elim. specialize (IH Hs).
  destruct (Ascii.eqb a sep); [by constructor|].
  destruct (split sep s) as [|q qs]; [by repeat constructor; simpl; rewrite Ha|].
  inversion IH as [|? ? Hq Hqs]; subst.
  constructor; [|done]. simpl. by rewrite Ha, Hq.
Qed.

Lemma has_join c sep pieces :
  Ascii.eqb sep c = false ->
  Forall (fun p => has c p = false) pieces ->
  has c (join (String sep EmptyString) pieces) = false.
Proof.
  intros Hsep Hall. induction Hall as [|p ps Hp Hps IH]; [done|].
  destruct ps as [|q ps]; [done|].
  change (join (String sep EmptyString) (p :: q :: ps))
    with (p ++ String sep (join (String sep EmptyString) (q :: ps))).
  set (rest := join (String sep EmptyString) (q :: ps)) in *.
  rewrite has_app, Hp. simpl. by rewrite Hsep, IH.
Qed.

(** Splitting a join of pieces that do not hold the separator gives the
    pieces back. *)
Lemma split_join sep pieces :
  pieces ≠ [] ->
  Forall (fun p => has sep p = false) pieces ->
  split sep (join (String sep EmptyString) pieces) = pieces.
Proof.
  intros Hne Hall. induction Hall as [|p ps Hp Hps IH]; [done|].
  destruct ps as [|q ps]; [by apply StrFacts.split_without|].
  change (join (String sep EmptyString) (p :: q :: ps))
    with (p ++ String sep (join (String sep EmptyString) (q :: ps))).
  set (rest := join (String sep EmptyString) (q :: ps)) in *.
  rewrite StrFacts.split_app by done. by rewrite IH.
Qed.

Lemma join_empty_inv sep pieces :
  join (String sep EmptyString) pieces = EmptyString ->
  pieces = [] ∨ pieces = [EmptyString].
Proof.
  destruct pieces as [|p [|q ps]].
  - by left.
  - simpl. intros ->. by right.
  - change (join (String sep EmptyString) (p :: q :: ps))
      with (p ++ String sep (join (String sep EmptyString) (q :: ps))).
    by destruct p.
Qed.

End StrMore.

(** ** The code parameter, further *)

Lemma key_test param :
  bool_decide (Str.split "=" param !! 0%nat = Some "code")
    = bool_decide (key_of param = "code").
Proof.
  pose proof (not_code_key param) as H. unfold not_code in H.
  by destruct (bool_decide (Str.split "=" param !! 0%nat = Some "code")),
       (bool_decide (key_of param = "code")).
Qed.

Lemma scan_pairs_none pairs :
  scan_pairs pairs = inr None ↔ Forall (fun p => key_of p ≠ "code") pairs.
Proof.
  induction pairs as [|p ps IH]; simpl; [by split; [constructor|]|].
  rewrite key_test. case_bool_decide as Hkey.
  - split.
    + by destruct (URI.decodeURIComponent _).
    + inversion 1; subst. done.
  - rewrite IH. split; [by constructor|by inversion 1].
Qed.

(** No parameter with the key [code]: no code. *)
Lemma getCodeFromLocation_no_key url :
  match Str.split "?" url !! 1%nat with
  | None => True
  | Some search => Forall (fun p => key_of p ≠ "code") (Str.split "&" search)
  end ->
  getCodeFromLocation url = inr None.
Proof.
  unfold getCodeFromLocation.
  destruct (Str.split "?" url) as [|base [|search rest]] eqn:E; simpl; [done|done|].
  apply scan_pairs_none.
Qed.

(** X1. [getCodeFromLocation] returns [null] exactly when the location has
    no [?], or no parameter of the text between its first and its second [?]
    has the key [code]. *)
Theorem getCodeFromLocation_null url :
  getCodeFromLocation url = inr None
  ↔ match Str.split "?" url !! 1%nat with
    | None => True
    | Some search => Forall (fun p => key_of p ≠ "code") (Str.split "&" search)
    end.
Proof.
  unfold getCodeFromLocation.
  destruct (Str.split "?" url) as [|base [|search rest]] eqn:E; simpl; [done|done|].
  apply scan_pairs_none.
Qed.

Lemma tokens_cons a s :
  Ascii.eqb a "%" = false ->
  URI.tokens (String a s)
    = match URI.tokens s with
      | Some ts => Some (URI.Lit a :: ts)
      | None => None
      end.
Proof.
  destruct a as [b0 b1 b2 b3 b4 b5 b6 b7].
  by destruct b0, b1, b2, b3, b4, b5, b6, b7.
Qed.

Lemma tokens_plain s :
  Str.has "%" s = false ->
  URI.tokens s = Some (map URI.Lit (list_ascii_of_string s)).
Proof.
  induction s as [|a s IH]; [done|].
  simpl Str.has. intros [Ha Hs]%orb_false_elim.
  rewrite (tokens_cons a s Ha), (IH Hs). done.
Qed.

Lemma assemble_plain chars :
  URI.assemble (length (map URI.Lit chars)) (map URI.Lit chars) = Some chars.
Proof. induction chars as [|a chars IH]; [done|]. simpl. by rewrite IH. Qed.

(** [decodeURIComponent] gives back a string that has no [%]. *)
Lemma decodeURIComponent_plain s :
  Str.has "%" s = false -> URI.decodeURIComponent s = Some s.
Proof.
  intros Hs. unfold URI.decodeURIComponent.
  rewrite (tokens_plain s Hs), assemble_plain. simpl.
  by rewrite string_of_list_ascii_of_string.
Qed.

(** X2. On a location with one [?] whose parameters before the first
    [code=value] have other keys, [getCodeFromLocation] returns [value], for
    a value that has none of the characters [%], [=], [&] and [?]. *)
Theorem getCodeFromLocation_plain base before value after :
  Str.has "?" base = false ->
  Forall (fun p => Str.has "&" p = false ∧ Str.has "?" p = false
                   ∧ key_of p ≠ "code") before ->
  Forall (fun p => Str.has "&" p = false ∧ Str.has "?" p = false) after ->
  Str.has "%" value = false -> Str.has "=" value = false ->
  Str.has "&" value = false -> Str.has "?" value = false ->
  getCodeFromLocation
    (base ++ "?" ++ Str.join "&" (before ++ ("code=" ++ value)%string :: after)%list)
    = inr (Some value).
Proof.
  intros Hbase Hbefore Hafter Hpct Heq Hamp Hq.
  set (params := (before ++ ("code=" ++ value)%string :: after)%list).
  assert (Forall (fun p => Str.has "&" p = false ∧ Str.has "?" p = false) params)
    as Hparams.
  { apply Forall_app. split; [by eapply Forall_impl; [exact Hbefore|]; intros ? (?&?&?)|].
    constructor; [|done]. change ("code=" ++ value) with ("code" ++ String "=" value).
    rewrite !StrMore.has_app. simpl. by rewrite Hamp, Hq. }
  assert (params ≠ []) as Hne by (unfold params; by destruct before).
  unfold getCodeFromLocation.
  change (base ++ "?" ++ Str.join "&" params)
    with (base ++ String "?" (Str.join "&" params)).
  rewrite StrFacts.split_app by done.
  rewrite StrFacts.split_without.
  2:{ apply StrMore.has_join; [done|]. eapply Forall_impl; [exact Hparams|].
      by intros ? [? ?]. }
  simpl.
  rewrite StrMore.split_join; [|done|].
  2:{ eapply Forall_impl; [exact Hparams|]. by intros ? [? ?]. }
  assert (Str.split "=" ("code=" ++ value) = ["code"; value]) as Hsplit.
  { change ("code=" ++ value) with ("code" ++ String "=" value).
    rewrite StrFacts.split_app by done. by rewrite StrFacts.split_without. }
  unfold params. rewrite scan_pairs_first.
  - rewrite Hsplit. simpl.
    assert ((if Str.truthy value then value else EmptyString) = value) as ->
      by by destruct value.
    by rewrite decodeURIComponent_plain.
  - eapply Forall_impl; [exact Hbefore|]. by intros ? (?&?&?).
  - unfold key_of. by rewrite Hsplit.
Qed.

(** The shape of what [removeCodeFromLocation] puts in the location. *)
Lemma code_removed_shape url stripped :
  code_removed url = Some stripped ->
  exists base kept,
    Str.has "?" base = false
    ∧ Forall (fun p => Str.has "&" p = false ∧ Str.has "?" p = false
                       ∧ key_of p ≠ "code") kept
    ∧ stripped = base ++ match Str.join "&" kept with
                         | EmptyString => EmptyString
                         | q => "?" ++ q
                         end.
Proof.
  unfold code_removed.
  destruct (Str.split "?" url) as [|base [|search rest]] eqn:E; simpl; [done|done|].
  destruct (Str.truthy search); simpl; [|done].
  intros [= <-].
  exists base,
    (List.filter (fun p => negb (bool_decide (key_of p = "code"))) (Str.split "&" search)).
  pose proof (StrMore.split_pieces "?" url) as Hpieces. rewrite E in Hpieces.
  inversion Hpieces as [|? ? Hb Hrest]; subst.
  inversion Hrest as [|? ? Hs _]; subst.
  split; [done|]. split.
  - apply Forall_forall. intros p Hin.
    apply list_elem_of_In, filter_In in Hin as [Hin%list_elem_of_In Hkey].
    pose proof (StrMore.split_pieces "&" search) as Hamp.
    pose proof (StrMore.split_pieces_without "?" "&" search Hs) as Hq.
    rewrite Forall_forall in Hamp, Hq.
    split; [by apply Hamp|]. split; [by apply Hq|].
    by apply negb_true_iff, bool_decide_eq_false in Hkey.
  - rewrite <- newSearch_filter. by destruct (newSearch search).
Qed.

Lemma join_kept_split kept c rest :
  Forall (fun p => Str.has "&" p = false ∧ Str.has "?" p = false
                   ∧ key_of p ≠ "code") kept ->
  Str.join "&" kept = String c rest ->
  Str.has "?" (String c rest) = false
  ∧ Str.split "&" (String c rest) = kept.
Proof.
  intros Hkept Hjoin. rewrite <- Hjoin. split.
  - apply StrMore.has_join; [done|]. eapply Forall_impl; [exact Hkept|].
    by intros ? (?&?&?).
  - apply StrMore.split_join.
    + intros ->. done.
    + eapply Forall_impl; [exact Hkept|]. by intros ? (?&?&?).
Qed.

#[local] Arguments Str.split : simpl never.
#[local] Arguments Str.join : simpl never.

(** X3. After [removeCodeFromLocation], [getCodeFromLocation] finds no code
    in the location, whatever the location was. *)
Theorem getCodeFromLocation_strip_code url :
  getCodeFromLocation (strip_code url) = inr None.
Proof.
  unfold strip_code. destruct (code_removed url) as [stripped|] eqn:E; simpl.
  - destruct (code_removed_shape url stripped E) as (base & kept & Hbase & Hkept & ->).
    apply getCodeFromLocation_no_key.
    destruct (Str.join "&" kept) as [|c rest] eqn:Hjoin.
    + rewrite StrMore.append_nil_r, StrFacts.split_without by done. done.
    + destruct (join_kept_split kept c rest Hkept Hjoin) as [Hq Hsplit].
      change (base ++ "?" ++ String c rest) with (base ++ String "?" (String c rest)).
      rewrite StrFacts.split_app, StrFacts.split_without by done. simpl.
      rewrite Hsplit. eapply Forall_impl; [exact Hkept|]. by intros ? (?&?&?).
  - apply getCodeFromLocation_no_key. unfold code_removed in E.
    destruct (Str.split "?" url) as [|base [|search rest]]; simpl in *; [done|done|].
    destruct search; [|done]. simpl. by repeat constructor.
Qed.

Lemma strip_code_shape base kept :
  Str.has "?" base = false ->
  Forall (fun p => Str.has "&" p = false ∧ Str.has "?" p = false
                   ∧ key_of p ≠ "code") kept ->
  strip_code (base ++ match Str.join "&" kept with
                      | EmptyString => EmptyString
                      | q => "?" ++ q
                      end)
    = base ++ match Str.join "&" kept with
              | EmptyString => EmptyString
              | q => "?" ++ q
              end.
Proof.
  intros Hbase Hkept. unfold strip_code, code_removed.
  destruct (Str.join "&" kept) as [|c rest] eqn:Hjoin.
  - rewrite StrMore.append_nil_r, StrFacts.split_without by done. done.
  - destruct (join_kept_split kept c rest Hkept Hjoin) as [Hq Hsplit].
    change (base ++ "?" ++ String c rest) with (base ++ String "?" (String c rest)).
    rewrite StrFacts.split_app, StrFacts.split_without by done. simpl.
    rewrite newSearch_filter, Hsplit.
    assert (List.filter (fun p => negb (bool_decide (key_of p = "code"))) kept = kept)
      as ->.
    { clear Hjoin Hsplit. induction Hkept as [|p ps (_&_&Hp) _ IH]; [done|].
      simpl. rewrite bool_decide_false by done. simpl. by rewrite IH. }
    by rewrite Hjoin.
Qed.

(** X4. [removeCodeFromLocation] twice is [removeCodeFromLocation] once. *)
Theorem strip_code_idempotent url :
  strip_code (strip_code url) = strip_code url.
Proof.
  assert (strip_code url = default url (code_removed url)) as H by done.
  destruct (code_removed url) as [stripped|] eqn:E; simpl in H; rewrite H.
  - destruct (code_removed_shape url stripped E) as (base & kept & Hbase & Hkept & ->).
    by apply strip_code_shape.
  - unfold strip_code. by rewrite E.
Qed.

(** ** Ending and starting a session *)

Lemma isAuthenticated_run props σ :
  isAuthenticated props σ
    = Normal (bool_decide (localStorage σ !! prefixed props "auth" ≠ None)) σ.
Proof. reflexivity. Qed.

Lemma isPending_run props σ :
  isPending props σ
    = Normal (bool_decide (localStorage σ !! prefixed props "pkce" ≠ None)
              && negb (bool_decide (localStorage σ !! prefixed props "auth" ≠ None))) σ.
Proof. reflexivity. Qed.

Lemma getUser_unauthenticated props jwtDecode σ :
  localStorage σ !! prefixed props "auth" = None ->
  getUser props jwtDecode σ = Throw (Error "Not authenticated") σ.
Proof.
  intros Hnone. unfold getUser. rewrite bind_run, isAuthenticated_run, Hnone.
  by rewrite bool_decide_false by (by intros ?).
Qed.

(** What [logout] does, with either argument. *)
Lemma logout_run props shouldEndSession σ :
  exists σ',
    logout props shouldEndSession σ = Normal true σ'
    ∧ localStorage σ'
      = delete (prefixed props "auth") (delete (prefixed props "pkce") (localStorage σ))
    ∧ length (navigations σ') = S (length (navigations σ))
    ∧ requests σ' = requests σ.
Proof. destruct shouldEndSession; by eexists. Qed.

(** X5. [logout] removes [pkce] and [auth] and nothing else from the
    storage, and asks for one navigation; after it the session is neither
    authenticated nor pending, [getUser] throws "Not authenticated", and a
    second [logout] changes nothing in the storage. *)
Theorem logout_ends_session props shouldEndSession σ :
  exists σ',
    logout props shouldEndSession σ = Normal true σ'
    ∧ localStorage σ'
      = delete (prefixed props "auth") (delete (prefixed props "pkce") (localStorage σ))
    ∧ length (navigations σ') = S (length (navigations σ))
    ∧ isAuthenticated props σ' = Normal false σ'
    ∧ isPending props σ' = Normal false σ'
    ∧ (forall jwtDecode,
         getUser props jwtDecode σ' = Throw (Error "Not authenticated") σ')
    ∧ forall again,
        exists σ'',
          logout props again σ' = Normal true σ''
          ∧ localStorage σ'' = localStorage σ'.
Proof.
  destruct (logout_run props shouldEndSession σ)
    as (σ' & Hrun & Hstorage & Hnav & _).
  assert (localStorage σ' !! prefixed props "auth" = None) as Hauth
    by (rewrite Hstorage; apply lookup_delete_eq).
  assert (localStorage σ' !! prefixed props "pkce" = None) as Hpkce.
  { rewrite Hstorage, lookup_delete_ne by (apply prefixed_ne; done).
    apply lookup_delete_eq. }
  exists σ'. split; [done|]. split; [done|]. split; [done|].
  split; [by rewrite isAuthenticated_run, Hauth|].
  split; [by rewrite isPending_run, Hauth, Hpkce|].
  split; [intros jwtDecode; by apply getUser_unauthenticated|].
  intros again.
  destruct (logout_run props again σ') as (σ'' & Hagain & Hstorage' & _).
  exists σ''. split; [done|].
  rewrite Hstorage'. by rewrite (delete_id _ _ Hpkce), (delete_id _ _ Hauth).
Qed.

(** What [authorize] does once the PKCE pair is made. *)
Lemma authorize_run props members σ :
  exists σ' query,
    authorize props (JObj members) σ = Normal () σ'
    ∧ localStorage σ'
      = delete (prefixed props "auth")
          (<[prefixed props "preAuthUri" := Plain (href σ)]>
             (<[prefixed props "pkce" := Json (JObj members)]> (localStorage σ)))
    ∧ navigations σ'
      = ReplaceAuthorize
          (Str.or_else (authorizeEndpoint props) (provider props ++ "/authorize"))
          query :: navigations σ
    ∧ query_codeChallenge query = members !! "codeChallenge"
    ∧ query_clientId query = clientId props
    ∧ query_scope query = Str.join " " (scopes props).
Proof. by do 2 eexists. Qed.

Lemma authorize_stores_pkce props members σ σ' :
  localStorage σ'
    = delete (prefixed props "auth")
        (<[prefixed props "preAuthUri" := Plain (href σ)]>
           (<[prefixed props "pkce" := Json (JObj members)]> (localStorage σ))) ->
  localStorage σ' !! prefixed props "pkce" = Some (Json (JObj members)).
Proof.
  intros ->. rewrite lookup_delete_ne by (apply prefixed_ne; done).
  rewrite lookup_insert_ne by (apply prefixed_ne; done).
  apply lookup_insert_eq.
Qed.

Lemma getPkce_stored props parsed σ :
  localStorage σ !! prefixed props "pkce" = Some (Json parsed) ->
  getPkce props σ = Normal parsed σ.
Proof. intros Hpkce. unfold getPkce, getItem. run_monad. by rewrite Hpkce. Qed.

(** X6. [authorize] (and so [login]), once the PKCE pair is made, stores the
    pair under [pkce] and the current location under [preAuthUri], removes
    [auth], and asks for the navigation to the authorize endpoint with the
    challenge of the pair; the session is then pending, not authenticated,
    and [getPkce] gives the pair back. *)
Theorem authorize_pending props members σ :
  exists σ',
    login props (JObj members) σ = Normal () σ'
    ∧ localStorage σ' !! prefixed props "pkce" = Some (Json (JObj members))
    ∧ localStorage σ' !! prefixed props "preAuthUri" = Some (Plain (href σ))
    ∧ localStorage σ' !! prefixed props "auth" = None
    ∧ isPending props σ' = Normal true σ'
    ∧ isAuthenticated props σ' = Normal false σ'
    ∧ getPkce props σ' = Normal (JObj members) σ'
    ∧ exists query,
        navigations σ'
          = ReplaceAuthorize
              (Str.or_else (authorizeEndpoint props) (provider props ++ "/authorize"))
              query :: navigations σ
        ∧ query_codeChallenge query = members !! "codeChallenge"
        ∧ query_clientId query = clientId props
        ∧ query_scope query = Str.join " " (scopes props).
Proof.
  destruct (authorize_run props members σ)
    as (σ' & query & Hrun & Hstorage & Hnav & Hquery).
  pose proof (authorize_stores_pkce props members σ σ' Hstorage) as Hpkce.
  assert (localStorage σ' !! prefixed props "auth" = None) as Hauth
    by (rewrite Hstorage; apply lookup_delete_eq).
  exists σ'. split; [done|]. split; [done|]. split.
  { rewrite Hstorage, lookup_delete_ne by (apply prefixed_ne; done).
    apply lookup_insert_eq. }
  split; [done|].
  split; [by rewrite isPending_run, Hpkce, Hauth|].
  split; [by rewrite isAuthenticated_run, Hauth|].
  split; [by apply getPkce_stored|].
  by exists query.
Qed.

(** X7. The code exchange that follows [authorize] sends the verifier of
    the stored pair: after [authorize] with a pair, [fetchToken(code)] calls
    [fetch] once, on the token endpoint, with the grant type
    [authorization_code], the code, and the [codeVerifier] of that pair. *)
Theorem authorize_then_exchange props members code σ :
  exists σ1 payload sent_request,
    authorize props (JObj members) σ = Normal () σ1
    ∧ fetchToken_request props code false σ1
      = Normal payload (add_request sent_request σ1)
    ∧ request_payload sent_request = payload
    ∧ request_url sent_request
      = Str.or_else (tokenEndpoint props) (provider props ++ "/token")
    ∧ TokenRequestBody.grantType payload = "authorization_code"
    ∧ TokenRequestBody.code payload = code
    ∧ TokenRequestBody.codeVerifier payload = members !! "codeVerifier"
    ∧ TokenRequestBody.refresh_token payload = None.
Proof.
  destruct (authorize_run props members σ) as (σ1 & query & Hrun & Hstorage & _).
  pose proof (getPkce_stored props _ σ1
                (authorize_stores_pkce props members σ σ1 Hstorage)) as Hpkce.
  exists σ1. do 2 eexists. split; [exact Hrun|].
  unfold fetchToken_request. rewrite bind_run.
  rewrite bind_run, Hpkce. cbv beta iota.
  split; [reflexivity|]. done.
Qed.

(** ** [getUser] *)

(** [getUser] when something is stored under [auth]. *)
Lemma getUser_stored props jwtDecode σ t :
  localStorage σ !! prefixed props "auth" = Some t ->
  getUser props jwtDecode σ =
    match JSON_parse t with
    | inl e => Throw e σ
    | inr record =>
        match JS.member record "id_token" with
        | inl e => Throw e σ
        | inr (Some token) =>
            if JS.truthy (Some token)
            then match jwtDecode token with
                 | inl e => Throw e σ
                 | inr user => Normal user σ
                 end
            else Throw (Error "No id token") σ
        | inr None => Throw (Error "No id token") σ
        end
    end.
Proof.
  intros E. unfold getUser, isAuthenticated, haveItem, getAuthTokens, getItem.
  run_monad. rewrite E. rewrite bool_decide_true by done. cbv beta iota.
  change (negb true) with false. cbv beta iota. rewrite E.
  destruct (JSON_parse t) as [e|record]; [done|].
  destruct (JS.member record "id_token") as [e|[token|]]; [done| |done].
  destruct (JS.truthy (Some token)); [|done].
  by destruct (jwtDecode token).
Qed.

(** X8. [getUser] returns exactly when a record is stored under [auth]
    whose [id_token] is truthy and is decoded by [jwtDecode]; it returns the
    decoded claims and changes nothing. *)
Theorem getUser_returns props jwtDecode σ user σ' :
  getUser props jwtDecode σ = Normal user σ'
  ↔ σ' = σ
    ∧ exists record token,
        localStorage σ !! prefixed props "auth" = Some (Json record)
        ∧ JS.member record "id_token" = inr (Some token)
        ∧ JS.truthy (Some token) = true
        ∧ jwtDecode token = inr user.
Proof.
  split.
  - destruct (localStorage σ !! prefixed props "auth") as [t|] eqn:E.
    + rewrite (getUser_stored props jwtDecode σ t E).
      destruct t as [plain|record]; [done|]. cbn [JSON_parse].
      destruct (JS.member record "id_token") as [e|[token|]] eqn:Em; [done| |done].
      destruct (JS.truthy (Some token)) eqn:Et; [|done].
      destruct (jwtDecode token) as [e|claims] eqn:Ed; [done|].
      intros [= <- <-]. split; [done|]. by exists record, token.
    + by rewrite (getUser_unauthenticated props jwtDecode σ E).
  - intros (-> & record & token & E & Em & Et & Ed).
    rewrite (getUser_stored props jwtDecode σ _ E). cbn [JSON_parse].
    by rewrite Em, Et, Ed.
Qed.

(** X9. With a record under [auth] that has no truthy [id_token], [getUser]
    throws "No id token" and changes nothing. *)
Theorem getUser_no_id_token props jwtDecode σ members :
  localStorage σ !! prefixed props "auth" = Some (Json (JObj members)) ->
  JS.truthy (members !! "id_token") = false ->
  getUser props jwtDecode σ = Throw (Error "No id token") σ.
Proof.
  intros E Hfalsy. rewrite (getUser_stored props jwtDecode σ _ E).
  cbn [JSON_parse JS.member].
  destruct (members !! "id_token") as [token|]; [|done].
  by rewrite Hfalsy.
Qed.

(** ** The keys of the class *)

(** X10. Whatever happens on the page (calls of the methods, timers,
    answers, loads), the class changes the storage only at its three keys:
    a key other than the prefixed [pkce], [auth] and [preAuthUri] keeps its
    value. *)
Theorem other_keys_untouched props events pg pg' key :
  key ≠ prefixed props "pkce" ->
  key ≠ prefixed props "auth" ->
  key ≠ prefixed props "preAuthUri" ->
  run props events pg = Some pg' ->
  localStorage (page_state pg') !! key = localStorage (page_state pg) !! key.
Proof.
  intros Hpkce Hauth Huri Hrun.
  apply (run_invariant props (stored key (localStorage (page_state pg) !! key)))
    with (events := events) (pg := pg);
    auto using frame_stored, sets_stored, removes_stored, arms_stored, sends_stored.
  reflexivity.
Qed.

(** ** The refresh timer *)

(** X11. With a record under [auth] that has a truthy [refresh_token] and a
    numeric [expires_at] after the time read, [startTimer] arms one timer
    with that refresh token and the delay [expires_at - now], cancels the
    timer of [this.timeout], and leaves the storage and the network alone. *)
Theorem startTimer_arms props σ members expires_at refresh_token :
  localStorage σ !! prefixed props "auth" = Some (Json (JObj members)) ->
  members !! "expires_at" = Some (JNum expires_at) ->
  expires_at ≠ 0 ->
  members !! "refresh_token" = Some refresh_token ->
  JS.truthy (Some refresh_token) = true ->
  0 < expires_at - clock σ ->
  exists σ',
    startTimer props σ = Normal () σ'
    ∧ timeout σ' = Some (next_handle σ)
    ∧ timers σ' !! next_handle σ = Some (Some refresh_token, expires_at - clock σ)
    ∧ (forall handle, timeout σ = Some handle -> handle ≠ next_handle σ ->
         timers σ' !! handle = None)
    ∧ localStorage σ' = localStorage σ
    ∧ requests σ' = requests σ
    ∧ href σ' = href σ.
Proof.
  intros Hauth Hat Hnz Hrt Htruthy Hlive.
  rewrite (startTimer_record props σ members Hauth), Hat, Hrt, Htruthy.
  simpl. destruct (expires_at =? 0) eqn:E; [lia|]. simpl.
  rewrite arm_or_expire_number.
  destruct (0 <? expires_at - clock σ) eqn:E'; [|lia].
  eexists. split; [reflexivity|]. simpl.
  split; [done|]. split; [apply lookup_insert_eq|]. split; [|done].
  intros handle -> Hne. rewrite lookup_insert_ne by done. apply lookup_delete_eq.
Qed.

(** X12. When the refresh exchange of the timer fails ([fetch] rejects or the
    body is not JSON), the callback removes [auth], strips the code from the
    location and logs the cause; it arms no timer and sends no second
    request. *)
Theorem refresh_failure_ends_session props refreshToken answer cause σ :
  failure answer = Some cause ->
  exists σ',
    refresh_callback props refreshToken answer σ = Normal () σ'
    ∧ localStorage σ' !! prefixed props "auth" = None
    ∧ timers σ' = timers σ
    ∧ timeout σ' = timeout σ
    ∧ length (requests σ') = S (length (requests σ))
    ∧ console σ' = Warn cause :: console σ
    ∧ href σ' = strip_code (href σ).
Proof.
  intros Hfail. unfold refresh_callback, then_catch, fetchToken.
  rewrite bind_run.
  destruct (fetchToken_request_refresh props refreshToken σ)
    as (payload & sent_request & -> & _ & _).
  destruct answer as [c|status [|v]]; simpl in Hfail; [| |done].
  - injection Hfail as ->. eexists. split; [reflexivity|]. simpl.
    repeat split. apply lookup_delete_eq.
  - injection Hfail as <-. eexists. split; [reflexivity|]. simpl.
    repeat split. apply lookup_delete_eq.
Qed.

Lemma getAuthTokens_stored props σ record :
  localStorage σ !! prefixed props "auth" = Some (Json record) ->
  getAuthTokens props σ = Normal record σ.
Proof. intros E. unfold getAuthTokens, getItem. run_monad. by rewrite E. Qed.

Lemma getAuthTokens_missing props σ :
  localStorage σ !! prefixed props "auth" = None ->
  getAuthTokens props σ = Throw (Error "Auth not found in local storage") σ.
Proof. intros E. unfold getAuthTokens, getItem. run_monad. by rewrite E. Qed.

(** X13. A response without [expires_in] gives a session that no timer
    refreshes: the exchange returns, the record is stored with [expires_at]
    [null], and no timer is armed. *)
Theorem exchange_without_expires_in props payload isRefresh status members σ :
  members !! "expires_in" = None ->
  exists tokens σ',
    fetchToken_response props payload isRefresh
      (Responded status (Parsed (JObj members))) σ = Normal tokens σ'
    ∧ JS.member tokens "expires_at" = inr (Some JNull)
    ∧ localStorage σ' !! prefixed props "auth" = Some (Json tokens)
    ∧ timers σ' = timers σ
    ∧ timeout σ' = timeout σ.
Proof.
  intros Hnone. unfold fetchToken_response.
  rewrite bind_run, removeItem_run. cbv beta iota.
  rewrite bind_run, ret_run. cbv beta iota.
  rewrite bind_run, carry_forward_object. cbv beta iota.
  rewrite bind_run, setAuthTokens_object.
  rewrite carried_lookup_ne, Hnone by done.
  change (JS.ToNumber None) with (Some JS.NaN). cbv beta iota.
  change (expires_at_of _ JS.NaN _) with JNull.
  set (record := <["expires_at" := JNull]> (carried isRefresh payload members)).
  set (σ2 := set_localStorage _ (tick _)).
  assert (localStorage σ2 !! prefixed props "auth" = Some (Json (JObj record)))
    as Hstored by apply lookup_insert_eq.
  assert ((if default true (autoRefresh props) then startTimer props else mret ()) σ2
          = Normal () σ2) as Harm.
  { destruct (default true (autoRefresh props)); [|done].
    apply (startTimer_guard props σ2 record Hstored). left.
    unfold record. by rewrite lookup_insert_eq. }
  rewrite bind_run, Harm. cbv beta iota.
  rewrite (getAuthTokens_stored props σ2 (JObj record) Hstored).
  exists (JObj record), σ2. split; [done|]. split; [|done].
  cbn [JS.member]. unfold record. by rewrite lookup_insert_eq.
Qed.

(** X14. A record that has already expired when [startTimer] reads the
    clock makes the exchange fail: with the timer to be armed, a truthy
    refresh token and [expires_at] not after that reading, [fetchToken]
    stores the record, [startTimer] removes it, and the exchange throws
    "Auth not found in local storage". *)
Theorem exchange_expired_on_receipt props payload isRefresh status members n σ :
  default true (autoRefresh props) = true ->
  members !! "expires_in" = Some (JNum n) ->
  JS.truthy (carried isRefresh payload members !! "refresh_token") = true ->
  clock σ + (n + default 5 (refreshSlack props)) * 1000 ≠ 0 ->
  clock σ + (n + default 5 (refreshSlack props)) * 1000 - clock (tick σ) <= 0 ->
  exists σ',
    fetchToken_response props payload isRefresh
      (Responded status (Parsed (JObj members))) σ
      = Throw (Error "Auth not found in local storage") σ'
    ∧ localStorage σ' !! prefixed props "auth" = None
    ∧ timers σ' = timers σ.
Proof.
  intros Harm Hn Hrt Hnz Hpast. unfold fetchToken_response.
  rewrite bind_run, removeItem_run. cbv beta iota.
  rewrite bind_run, ret_run. cbv beta iota.
  rewrite bind_run, carry_forward_object. cbv beta iota.
  rewrite bind_run, setAuthTokens_object.
  rewrite carried_lookup_ne, Hn by done.
  change (JS.ToNumber (Some (JNum n))) with (Some (JS.Num n)). cbv beta iota.
  change (expires_at_of (clock (set_localStorage (delete (prefixed props "pkce")) σ))
                        (JS.Num n) (default 5 (refreshSlack props)))
    with (JNum (clock σ + (n + default 5 (refreshSlack props)) * 1000)).
  set (e := clock σ + (n + default 5 (refreshSlack props)) * 1000) in *.
  set (record := <["expires_at" := JNum e]> (carried isRefresh payload members)).
  set (σ2 := set_localStorage _ (tick _)).
  assert (localStorage σ2 !! prefixed props "auth" = Some (Json (JObj record)))
    as Hstored by apply lookup_insert_eq.
  rewrite bind_run, Harm.
  rewrite (startTimer_record props σ2 record Hstored).
  assert (record !! "expires_at" = Some (JNum e)) as -> by apply lookup_insert_eq.
  assert (record !! "refresh_token"
          = carried isRefresh payload members !! "refresh_token") as ->
    by (unfold record; by rewrite lookup_insert_ne).
  rewrite Hrt. simpl. destruct (e =? 0) eqn:E; [lia|]. simpl.
  rewrite arm_or_expire_number.
  change (clock σ2) with (clock (tick σ)).
  destruct (0 <? e - clock (tick σ)) eqn:E'; [lia|]. cbv beta iota.
  rewrite getAuthTokens_missing by apply lookup_delete_eq.
  eexists. split; [reflexivity|]. split; [apply lookup_delete_eq|done].
Qed.

(** What [armRefreshTimer] changes, and what it leaves. *)
Lemma armRefreshTimer_effect refreshToken timeoutDuration σ :
  one_timer σ ->
  exists σ',
    armRefreshTimer refreshToken timeoutDuration σ = Normal () σ'
    ∧ timeout σ' = Some (next_handle σ)
    ∧ timers σ' = {[ next_handle σ := (refreshToken, timeoutDuration) ]}
    ∧ localStorage σ' = localStorage σ
    ∧ clock σ' = clock σ
    ∧ ticks σ' = ticks σ
    ∧ href σ' = href σ
    ∧ navigations σ' = navigations σ
    ∧ requests σ' = requests σ.
Proof.
  intros Hone.
  destruct (armRefreshTimer_only refreshToken timeoutDuration σ Hone)
    as (σ' & Hrun & Hhandle & Htimers).
  exists σ'. split; [done|]. split; [done|]. split; [done|].
  unfold armRefreshTimer, modify in Hrun. by injection Hrun as <-.
Qed.

Lemma carried_token payload members :
  carried true payload members !! "refresh_token"
    = if JS.truthy (members !! "refresh_token")
      then members !! "refresh_token"
      else TokenRequestBody.refresh_token payload.
Proof.
  unfold carried. simpl.
  destruct (JS.truthy (members !! "refresh_token")); [done|]. simpl.
  destruct (TokenRequestBody.refresh_token payload).
  - apply lookup_insert_eq.
  - apply lookup_delete_eq.
Qed.

(** An exchange on a record that is still valid when [startTimer] reads the
    clock: the record is stored and returned, at most the timer of
    [this.timeout] is pending, and the clock was read once or twice. *)
Lemma fetchToken_response_live props payload isRefresh status members n σ :
  one_timer σ ->
  members !! "expires_in" = Some (JNum n) ->
  0 < clock σ + (n + default 5 (refreshSlack props)) * 1000 - clock (tick σ) ->
  exists σ',
    fetchToken_response props payload isRefresh
      (Responded status (Parsed (JObj members))) σ
      = Normal (JObj (<["expires_at" :=
                          JNum (clock σ + (n + default 5 (refreshSlack props)) * 1000)]>
                      (carried isRefresh payload members))) σ'
    ∧ localStorage σ'
      = <[prefixed props "auth" :=
            Json (JObj (<["expires_at" :=
                            JNum (clock σ + (n + default 5 (refreshSlack props)) * 1000)]>
                        (carried isRefresh payload members)))]>
          (delete (prefixed props "pkce") (localStorage σ))
    ∧ one_timer σ'
    ∧ href σ' = href σ
    ∧ navigations σ' = navigations σ
    ∧ requests σ' = requests σ
    ∧ (clock σ' = clock (tick σ) ∧ ticks σ' = ticks (tick σ)
       ∨ clock σ' = clock (tick (tick σ)) ∧ ticks σ' = ticks (tick (tick σ))).
Proof.
  intros Hone Hn Hlive. unfold fetchToken_response.
  rewrite bind_run, removeItem_run. cbv beta iota.
  rewrite bind_run, ret_run. cbv beta iota.
  rewrite bind_run, carry_forward_object. cbv beta iota.
  rewrite bind_run, setAuthTokens_object.
  rewrite carried_lookup_ne, Hn by done.
  change (JS.ToNumber (Some (JNum n))) with (Some (JS.Num n)). cbv beta iota.
  change (expires_at_of (clock (set_localStorage (delete (prefixed props "pkce")) σ))
                        (JS.Num n) (default 5 (refreshSlack props)))
    with (JNum (clock σ + (n + default 5 (refreshSlack props)) * 1000)).
  set (e := clock σ + (n + default 5 (refreshSlack props)) * 1000) in *.
  set (record := <["expires_at" := JNum e]> (carried isRefresh payload members)).
  set (σ2 := set_localStorage _ (tick _)).
  assert (localStorage σ2 !! prefixed props "auth" = Some (Json (JObj record)))
    as Hstored by apply lookup_insert_eq.
  assert (one_timer σ2) as Hone2 by done.
  assert (exists σ3,
            (if default true (autoRefresh props) then startTimer props else mret ()) σ2
              = Normal () σ3
            ∧ localStorage σ3 = localStorage σ2 ∧ one_timer σ3 ∧ href σ3 = href σ
            ∧ navigations σ3 = navigations σ ∧ requests σ3 = requests σ
            ∧ (clock σ3 = clock (tick σ) ∧ ticks σ3 = ticks (tick σ)
               ∨ clock σ3 = clock (tick (tick σ)) ∧ ticks σ3 = ticks (tick (tick σ))))
    as (σ3 & Harm & Hstorage & Hone3 & Hhref & Hnav & Hreq & Hclock).
  { destruct (default true (autoRefresh props)).
    2:{ exists σ2. repeat (split; [done|]). by left. }
    rewrite (startTimer_record props σ2 record Hstored).
    destruct (negb (JS.truthy (record !! "expires_at"))
              || negb (JS.truthy (record !! "refresh_token"))).
    { exists σ2. repeat (split; [done|]). by left. }
    unfold record at 2. rewrite lookup_insert_eq, arm_or_expire_number.
    change (clock σ2) with (clock (tick σ)).
    destruct (0 <? e - clock (tick σ)) eqn:E; [|lia].
    destruct (armRefreshTimer_effect (record !! "refresh_token")
                (e - clock (tick σ)) (tick σ2))
      as (σ3 & -> & Hh3 & Ht3 & Hs & Hc & Ht & Hh & Hn3 & Hr3); [done|].
    exists σ3. split; [done|]. split; [done|]. split.
    { intros handle Hin. rewrite Hh3. rewrite Ht3 in Hin.
      destruct (decide (next_handle (tick σ2) = handle)) as [->|Hne]; [done|].
      by rewrite lookup_singleton_ne in Hin. }
    split; [done|]. split; [done|]. split; [done|]. right. by rewrite Hc, Ht. }
  rewrite bind_run, Harm. cbv beta iota.
  rewrite (getAuthTokens_stored props σ3 (JObj record)) by (by rewrite Hstorage).
  exists σ3. split; [done|]. split; [by rewrite Hstorage|]. done.
Qed.

Lemma refresh_fulfilled_live props record expires_at σ :
  record !! "expires_at" = Some (JNum expires_at) ->
  expires_at ≠ 0 ->
  0 < expires_at - clock σ ->
  refresh_fulfilled props (JObj record) σ
    = armRefreshTimer (record !! "refresh_token") (expires_at - clock σ) (tick σ).
Proof.
  intros Hat Hnz Hlive. unfold refresh_fulfilled.
  rewrite bind_run. cbn [JS.member lift]. rewrite ret_run. cbv beta iota.
  rewrite bind_run, Hat, ret_run. cbv beta iota.
  assert (JS.truthy (Some (JNum expires_at)) = true) as ->.
  { simpl. destruct (expires_at =? 0) eqn:E; [lia|done]. }
  cbn [negb]. rewrite arm_or_expire_number.
  by destruct (0 <? expires_at - clock σ) eqn:E; [|lia].
Qed.

(** X15. When the refresh exchange of the timer succeeds on a response with
    a numeric [expires_in] and the new record is still valid at the readings
    of the clock that follow, the callback stores the new record and arms
    again: exactly one timer is pending afterwards, with the refresh token of
    the response (or, when the response has none, the one that was sent) and
    the delay [expires_at - now]. *)
Theorem refresh_success_rearms props refreshToken status members n σ :
  one_timer σ ->
  members !! "expires_in" = Some (JNum n) ->
  clock σ + (n + default 5 (refreshSlack props)) * 1000 ≠ 0 ->
  0 < clock σ + (n + default 5 (refreshSlack props)) * 1000 - clock (tick σ) ->
  0 < clock σ + (n + default 5 (refreshSlack props)) * 1000 - clock (tick (tick σ)) ->
  exists σ' handle now tokens,
    refresh_callback props refreshToken
      (Responded status (Parsed (JObj members))) σ = Normal () σ'
    ∧ timers σ'
      = {[ handle :=
             (if JS.truthy (members !! "refresh_token")
              then members !! "refresh_token" else refreshToken,
              clock σ + (n + default 5 (refreshSlack props)) * 1000 - now) ]}
    ∧ timeout σ' = Some handle
    ∧ (now = clock (tick σ) ∨ now = clock (tick (tick σ)))
    ∧ localStorage σ' !! prefixed props "auth" = Some (Json tokens)
    ∧ JS.member tokens "expires_at"
      = inr (Some (JNum (clock σ + (n + default 5 (refreshSlack props)) * 1000))).
Proof.
  intros Hone Hn Hnz Hlive1 Hlive2.
  unfold refresh_callback, then_catch, fetchToken. rewrite bind_run.
  destruct (fetchToken_request_refresh props refreshToken σ)
    as (payload & sent_request & -> & Hcode & _).
  destruct (fetchToken_response_live props payload true status members n
              (add_request sent_request σ) Hone Hn Hlive1)
    as (σ3 & -> & Hstorage3 & Hone3 & _ & _ & _ & Hclock).
  assert (localStorage σ3 !! prefixed props "auth"
          = Some (Json (JObj (<["expires_at" :=
                                  JNum (clock σ + (n + default 5 (refreshSlack props)) * 1000)]>
                              (carried true payload members))))) as Hstored
    by (rewrite Hstorage3; apply lookup_insert_eq).
  clear Hstorage3.
  change (clock (add_request sent_request σ)) with (clock σ) in *.
  change (tick (add_request sent_request σ)) with (add_request sent_request (tick σ)) in *.
  change (tick (add_request sent_request (tick σ)))
    with (add_request sent_request (tick (tick σ))) in *.
  change (clock (add_request sent_request ?s)) with (clock s) in *.
  set (e := clock σ + (n + default 5 (refreshSlack props)) * 1000) in *.
  set (record := <["expires_at" := JNum e]> (carried true payload members)) in *.
  assert (0 < e - clock σ3) as Hlive3.
  { destruct Hclock as [[Hc _]|[Hc _]]; by rewrite Hc. }
  rewrite (refresh_fulfilled_live props record e σ3)
    by (done || apply lookup_insert_eq).
  destruct (armRefreshTimer_effect (record !! "refresh_token") (e - clock σ3) (tick σ3))
    as (σ' & -> & Hhandle & Htimers & Hstorage & _); [done|].
  exists σ', (next_handle (tick σ3)), (clock σ3), (JObj record).
  split; [done|]. split.
  { rewrite Htimers. unfold record.
    rewrite lookup_insert_ne, carried_token, Hcode by done. done. }
  split; [done|]. split.
  { destruct Hclock as [[Hc _]|[Hc _]]; [by left|by right]. }
  split; [by rewrite Hstorage|].
  cbn [JS.member]. unfold record. by rewrite lookup_insert_eq.
Qed.

(** ** A reload after [logout] *)

(** X16. After [logout] and a load of a page whose location carries no
    code, nothing of the session is left: no record under [auth], no timer
    pending, no exchange in flight, and no request was sent. *)
Theorem logout_then_load props shouldEndSession url pg :
  getCodeFromLocation url = inr None ->
  exists pg',
    run props [Call_logout shouldEndSession; Load url] pg = Some pg'
    ∧ localStorage (page_state pg') !! prefixed props "auth" = None
    ∧ timers (page_state pg') = ∅
    ∧ in_flight pg' = []
    ∧ requests (page_state pg') = requests (page_state pg)
    ∧ href (page_state pg') = url.
Proof.
  intros Hcode. cbn [run].
  destruct (logout_run props shouldEndSession (page_state pg))
    as (σ1 & Hlogout & Hstorage & _ & Hrequests).
  assert (localStorage σ1 !! prefixed props "auth" = None) as Hauth
    by (rewrite Hstorage; apply lookup_delete_eq).
  cbn [step]. unfold call. rewrite Hlogout. cbn [settle mbind option_bind].
  cbn [step]. rewrite Hcode. cbn [page_state].
  assert (startTimer props (loaded url σ1) = Normal () (loaded url σ1)) as Hstart.
  { unfold startTimer. rewrite bind_run, isAuthenticated_run.
    change (localStorage (loaded url σ1)) with (localStorage σ1).
    by rewrite Hauth. }
  destruct (bool_decide (autoRefresh props = Some true)).
  - unfold call. cbn [page_state]. rewrite Hstart. cbn [settle mbind option_bind].
    eexists. split; [reflexivity|]. done.
  - eexists. split; [reflexivity|]. done.
Qed.

(** ** The other parameters of the location *)

(** X17. On a location with one [?] and a query that is not empty,
    [removeCodeFromLocation] keeps what stands before the [?] and, after it,
    the parameters whose key is not [code], as they are and in their order,
    joined by [&]; it leaves no [?] when nothing is kept. *)
Theorem removeCodeFromLocation_keeps_others base search :
  Str.has "?" base = false -> Str.has "?" search = false -> search ≠ EmptyString ->
  code_removed (base ++ "?" ++ search) =
    Some (base ++
          match Str.join "&"
                  (List.filter (fun p => negb (bool_decide (key_of p = "code")))
                               (Str.split "&" search)) with
          | EmptyString => EmptyString
          | kept => "?" ++ kept
          end).
Proof.
  intros Hbase Hsearch Hne.
  rewrite (code_removed_one_query base search Hbase Hsearch Hne).
  by rewrite newSearch_filter.
Qed.

(** ** The code exchange of the constructor, from end to end *)

Lemma fetchToken_request_code props code σ pair :
  localStorage σ !! prefixed props "pkce" = Some (Json (JObj pair)) ->
  exists payload sent_request,
    fetchToken_request props code false σ
      = Normal payload (add_request sent_request σ)
    ∧ request_payload sent_request = payload
    ∧ TokenRequestBody.code payload = code
    ∧ TokenRequestBody.codeVerifier payload = pair !! "codeVerifier".
Proof.
  intros Hpkce. unfold fetchToken_request. rewrite bind_run.
  rewrite bind_run. unfold getPkce, getItem. run_monad. rewrite Hpkce.
  by do 2 eexists.
Qed.

Lemma restoreUri_effect props σ :
  exists σ',
    restoreUri props σ = Normal () σ'
    ∧ localStorage σ' = delete (prefixed props "preAuthUri") (localStorage σ)
    ∧ href σ' = strip_code (href σ)
    ∧ navigations σ'
      = match localStorage σ !! prefixed props "preAuthUri" with
        | Some uri => Replace uri :: navigations σ
        | None => navigations σ
        end
    ∧ requests σ' = requests σ
    ∧ timers σ' = timers σ
    ∧ timeout σ' = timeout σ.
Proof.
  unfold restoreUri, getItem. rewrite !bind_run. simpl.
  destruct (localStorage σ !! prefixed props "preAuthUri"); by eexists.
Qed.

(** X18. The landing after [authorize]: when the location carries a code,
    a PKCE pair is stored, and the token endpoint answers with an object
    whose [expires_in] is a number and whose record is still valid when
    [startTimer] reads the clock, the constructor sends one request with the
    code and the verifier of the pair, stores the response with its
    [expires_at] under [auth], removes [pkce] and [preAuthUri], strips the
    code from the location, and asks for the navigation to the stored
    pre-auth URI if there was one. *)
Theorem constructor_exchange_succeeds props status members n pair code σ :
  getCodeFromLocation (href σ) = inr (Some code) ->
  localStorage σ !! prefixed props "pkce" = Some (Json (JObj pair)) ->
  members !! "expires_in" = Some (JNum n) ->
  one_timer σ ->
  0 < clock σ + (n + default 5 (refreshSlack props)) * 1000 - clock (tick σ) ->
  exists σ' sent_request,
    constructor props (Responded status (Parsed (JObj members))) σ = Normal () σ'
    ∧ localStorage σ'
      = delete (prefixed props "preAuthUri")
          (<[prefixed props "auth" :=
               Json (JObj (<["expires_at" :=
                               JNum (clock σ + (n + default 5 (refreshSlack props)) * 1000)]>
                           members))]>
             (delete (prefixed props "pkce") (localStorage σ)))
    ∧ href σ' = strip_code (href σ)
    ∧ navigations σ'
      = match localStorage σ !! prefixed props "preAuthUri" with
        | Some uri => Replace uri :: navigations σ
        | None => navigations σ
        end
    ∧ requests σ' = sent_request :: requests σ
    ∧ TokenRequestBody.code (request_payload sent_request) = Some (JStr code)
    ∧ TokenRequestBody.codeVerifier (request_payload sent_request)
      = pair !! "codeVerifier"
    ∧ one_timer σ'.
Proof.
  intros Hcode Hpkce Hn Hone Hlive.
  rewrite (constructor_with_code props _ σ code Hcode).
  unfold then_catch, fetchToken. rewrite bind_run.
  destruct (fetchToken_request_code props (Some (JStr code)) σ pair Hpkce)
    as (payload & sent_request & -> & Hpayload & Hsent & Hverifier).
  destruct (fetchToken_response_live props payload false status members n
              (add_request sent_request σ) Hone Hn Hlive)
    as (σ3 & -> & Hstorage & Hone3 & Hhref & Hnav & Hreq & _).
  destruct (restoreUri_effect props σ3)
    as (σ' & -> & Hstorage' & Hhref' & Hnav' & Hreq' & Htimers' & Htimeout').
  exists σ', sent_request. split; [done|].
  assert (localStorage σ3 !! prefixed props "preAuthUri"
          = localStorage σ !! prefixed props "preAuthUri") as Huri.
  { rewrite Hstorage. rewrite lookup_insert_ne by (apply prefixed_ne; done).
    simpl. by rewrite lookup_delete_ne by (apply prefixed_ne; done). }
  split; [by rewrite Hstorage', Hstorage|].
  split; [by rewrite Hhref', Hhref|].
  split; [by rewrite Hnav', Huri, Hnav|].
  split; [by rewrite Hreq', Hreq|].
  split; [by rewrite Hpayload|]. split; [by rewrite Hpayload|].
  intros handle Hin. rewrite Htimers' in Hin. rewrite Htimeout'.
  by apply Hone3.
Qed.

(** * The further properties on concrete pages *)

Lemma getCodeFromLocation_plain_witness :
  getCodeFromLocation "https://a/b?x=1&code=ABC&y=2" = inr (Some "ABC").
Proof.
  refine (getCodeFromLocation_plain "https://a/b" ["x=1"] "ABC" ["y=2"]
            eq_refl _ _ eq_refl eq_refl eq_refl eq_refl).
  - constructor; [|constructor]. split; [reflexivity|]. split; [reflexivity|].
    intros H. vm_compute in H. discriminate H.
  - constructor; [|constructor]. split; reflexivity.
Defined.

Lemma removeCodeFromLocation_keeps_others_witness :
  code_removed "https://a/b?x=1&code=ABC&y=2" = Some "https://a/b?x=1&y=2".
Proof.
  refine (removeCodeFromLocation_keeps_others "https://a/b" "x=1&code=ABC&y=2"
            eq_refl eq_refl _).
  discriminate.
Defined.

Lemma getUser_no_id_token_witness :
  getUser Demo.props Demo.decode
    (Demo.at_url "https://a/b" (<["auth" := Json (JObj Demo.access_only)]> ∅) 1000)
  = Throw (Error "No id token")
      (Demo.at_url "https://a/b" (<["auth" := Json (JObj Demo.access_only)]> ∅) 1000).
Proof.
  apply (getUser_no_id_token Demo.props Demo.decode _ Demo.access_only).
  - vm_compute; reflexivity.
  - vm_compute; reflexivity.
Defined.

Lemma other_keys_untouched_witness :
  exists pg',
    run Demo.props [Call_logout false; Call_authorize Demo.pkce; Load "https://a/b?code=XYZ"]
        Demo.with_theme = Some pg'
    ∧ localStorage (page_state pg') !! "theme" = Some (Plain "dark").
Proof.
  exists (default Demo.with_theme
            (run Demo.props
               [Call_logout false; Call_authorize Demo.pkce; Load "https://a/b?code=XYZ"]
               Demo.with_theme)).
  assert (run Demo.props
            [Call_logout false; Call_authorize Demo.pkce; Load "https://a/b?code=XYZ"]
            Demo.with_theme
          = Some (default Demo.with_theme
                    (run Demo.props
                       [Call_logout false; Call_authorize Demo.pkce;
                        Load "https://a/b?code=XYZ"]
                       Demo.with_theme))) as Hrun by (vm_compute; reflexivity).
  split; [exact Hrun|].
  refine (eq_trans
            (other_keys_untouched Demo.props _ Demo.with_theme _ "theme" _ _ _ Hrun) _).
  - vm_compute; discriminate.
  - vm_compute; discriminate.
  - vm_compute; discriminate.
  - vm_compute; reflexivity.
Defined.

Lemma startTimer_arms_witness :
  exists σ',
    startTimer Demo.props (page_state Demo.session) = Normal () σ'
    ∧ timeout σ' = Some 1%positive
    ∧ timers σ' !! 1%positive = Some (Some (JStr "R0"), 4000).
Proof.
  edestruct (startTimer_arms Demo.props (page_state Demo.session)
               (<["expires_at" := JNum 5000]> (Demo.tokens 3600 (Some "R0")))
               5000 (JStr "R0"))
    as (σ' & Hrun & Hhandle & Htimer & _).
  - vm_compute; reflexivity.
  - vm_compute; reflexivity.
  - lia.
  - vm_compute; reflexivity.
  - reflexivity.
  - vm_compute; reflexivity.
  - exists σ'. split; [exact Hrun|]. split; [exact Hhandle|exact Htimer].
Defined.

Lemma refresh_failure_ends_session_witness :
  failure (Rejected TypeError) = Some TypeError
  ∧ exists σ',
      refresh_callback Demo.props (Some (JStr "R0")) (Rejected TypeError)
                       (page_state Demo.session) = Normal () σ'
      ∧ localStorage σ' !! prefixed Demo.props "auth" = None.
Proof.
  split; [reflexivity|].
  destruct (refresh_failure_ends_session Demo.props (Some (JStr "R0"))
              (Rejected TypeError) TypeError (page_state Demo.session) eq_refl)
    as (σ' & Hrun & Hauth & _).
  exists σ'. split; [exact Hrun|exact Hauth].
Defined.

Lemma exchange_without_expires_in_witness :
  exists tokens σ',
    fetchToken_response Demo.props Demo.code_payload false
      (Responded 200 (Parsed (JObj Demo.access_only))) Demo.landing
      = Normal tokens σ'
    ∧ JS.member tokens "expires_at" = inr (Some JNull)
    ∧ timers σ' = timers Demo.landing.
Proof.
  destruct (exchange_without_expires_in Demo.props Demo.code_payload false 200
              Demo.access_only Demo.landing ltac:(vm_compute; reflexivity))
    as (tokens & σ' & Hrun & Hat & _ & Htimers & _).
  exists tokens, σ'. split; [exact Hrun|]. split; [exact Hat|exact Htimers].
Defined.

Lemma exchange_expired_on_receipt_witness :
  exists σ',
    fetchToken_response Demo.props Demo.code_payload false
      (Responded 200 (Parsed (JObj (Demo.tokens (-5) (Some "R1"))))) Demo.landing
      = Throw (Error "Auth not found in local storage") σ'
    ∧ localStorage σ' !! prefixed Demo.props "auth" = None.
Proof.
  edestruct (exchange_expired_on_receipt Demo.props Demo.code_payload false 200
               (Demo.tokens (-5) (Some "R1")) (-5) Demo.landing)
    as (σ' & Hrun & Hauth & _).
  - reflexivity.
  - vm_compute; reflexivity.
  - vm_compute; reflexivity.
  - vm_compute; discriminate.
  - vm_compute; discriminate.
  - exists σ'. split; [exact Hrun|exact Hauth].
Defined.

Lemma refresh_success_rearms_witness :
  exists σ' handle now,
    refresh_callback Demo.props (Some (JStr "R0"))
      (Responded 200 (Parsed (JObj (Demo.tokens 3600 None))))
      (page_state Demo.session) = Normal () σ'
    ∧ timers σ' = {[ handle := (Some (JStr "R0"), 3606000 - now) ]}.
Proof.
  edestruct (refresh_success_rearms Demo.props (Some (JStr "R0")) 200
               (Demo.tokens 3600 None) 3600 (page_state Demo.session))
    as (σ' & handle & now & tokens & Hrun & Htimers & _).
  - apply one_timer_none. reflexivity.
  - vm_compute; reflexivity.
  - vm_compute; discriminate.
  - vm_compute; reflexivity.
  - vm_compute; reflexivity.
  - exists σ', handle, now. split; [exact Hrun|].
    etransitivity; [exact Htimers|]. f_equal.
Defined.

Lemma logout_then_load_witness :
  exists pg',
    run Demo.props [Call_logout false; Load "https://a/b"] Demo.session = Some pg'
    ∧ localStorage (page_state pg') !! prefixed Demo.props "auth" = None
    ∧ timers (page_state pg') = ∅.
Proof.
  destruct (logout_then_load Demo.props false "https://a/b" Demo.session eq_refl)
    as (pg' & Hrun & Hauth & Htimers & _).
  exists pg'. split; [exact Hrun|]. split; [exact Hauth|exact Htimers].
Defined.

Lemma constructor_exchange_succeeds_witness :
  exists σ',
    constructor Demo.props
      (Responded 200 (Parsed (JObj (Demo.tokens 3600 (Some "R1")))))
      Demo.landing = Normal () σ'
    ∧ href σ' = "https://a/b?x=1&y=2"
    ∧ length (requests σ') = 1%nat
    ∧ localStorage σ' !! prefixed Demo.props "pkce" = None
    ∧ localStorage σ' !! prefixed Demo.props "preAuthUri" = None.
Proof.
  edestruct (constructor_exchange_succeeds Demo.props 200
               (Demo.tokens 3600 (Some "R1")) 3600
               (<["codeVerifier" := JStr "V"]> (<["codeChallenge" := JStr "C"]> ∅))
               "XYZ" Demo.landing)
    as (σ' & sent_request & Hrun & Hstorage & Hhref & _ & Hrequests & _).
  - vm_compute; reflexivity.
  - vm_compute; reflexivity.
  - vm_compute; reflexivity.
  - apply one_timer_none. reflexivity.
  - vm_compute; reflexivity.
  - exists σ'. split; [exact Hrun|].
    split; [etransitivity; [exact Hhref|vm_compute; reflexivity]|].
    split; [by rewrite Hrequests|].
    split; [by rewrite Hstorage|by rewrite Hstorage, lookup_delete_eq].
Defined.
